(** * include/linux/platform/tegra/mcerr.h

    Tegra memory-controller (MC) error-interrupt header: register offsets,
    status bit fields, interrupt bits, error codes, the [mc_error] and
    [mcerr_chip_specific] structures, the initialiser macros and the
    [mcerr_pr] logging macro.

    The development has three layers.
    - [CSyntax]: the fragment of C and of the preprocessor the header is
      written in, and [mcerr_h], the header transcribed item by item.
    - The shallow embedding: every integer macro as a [Z], the
      function-like macros as functions, the structures as records, the
      logging macro as a computation over the kernel state.
    - The properties of both, and the agreement of the two layers. *)

From Stdlib Require Import ZArith List String Bool Lia Permutation.
Import ListNotations.
Local Open Scope string_scope.
Local Open Scope Z_scope.
Set Warnings "-register-all".

(** ** C integer ranges

    [u32] is the kernel's unsigned 32-bit type; an unsuffixed literal and a
    shift of one have type [int] (32 bits, signed) on every Tegra target. *)

Definition is_u32 (z : Z) : Prop := 0 <= z < 2 ^ 32.
Definition is_int (z : Z) : Prop := - 2 ^ 31 <= z < 2 ^ 31.

(** Conversion of an integer to [u32] and to [int]: 32 bits, two's
    complement. *)
Definition to_u32 (z : Z) : Z := z mod 2 ^ 32.

Definition to_int (z : Z) : Z :=
  let u := z mod 2 ^ 32 in
  if u <? 2 ^ 31 then u else u - 2 ^ 32.

(** ** Object-like integer macros (mcerr.h lines 32-67, 91-93, 187) *)

Definition MAX_PRINTS : Z := 5.

(* Legacy register offsets. *)
Definition MC_INT_STATUS : Z := 0x0.
Definition MC_INT_MASK : Z := 0x4.
Definition MC_ERR_BBC_STATUS : Z := 0x84.
Definition MC_ERR_BBC_ADR : Z := 0x88.

(* Fields of the error status register. *)
Definition MC_ERR_SMMU_MASK : Z := Z.shiftl 0x7 25.
Definition MC_ERR_SMMU_BITS (err : Z) : Z :=
  Z.shiftr (Z.land err MC_ERR_SMMU_MASK) 25.
Definition MC_ERR_STATUS_WRITE : Z := Z.shiftl 1 16.
Definition MC_ERR_STATUS_SECURE : Z := Z.shiftl 1 17.
Definition MC_ERR_STATUS_ADR_HI : Z := Z.shiftl 3 20.

(* Bits of the interrupt status register. *)
Definition MC_INT_DECERR_EMEM : Z := Z.shiftl 1 6.
Definition MC_INT_SECURITY_VIOLATION : Z := Z.shiftl 1 8.
Definition MC_INT_ARBITRATION_EMEM : Z := Z.shiftl 1 9.
Definition MC_INT_INVALID_SMMU_PAGE : Z := Z.shiftl 1 10.
Definition MC_INT_INVALID_APB_ASID_UPDATE : Z := Z.shiftl 1 11.
Definition MC_INT_DECERR_VPR : Z := Z.shiftl 1 12.
Definition MC_INT_SECERR_SEC : Z := Z.shiftl 1 13.
Definition MC_INT_BBC_PRIVATE_MEM_VIOLATION : Z := Z.shiftl 1 14.
Definition MC_INT_DECERR_BBC : Z := Z.shiftl 1 15.
Definition MC_INT_DECERR_MTS : Z := Z.shiftl 1 16.
Definition MC_INT_DECERR_GENERALIZED_CARVEOUT : Z := Z.shiftl 1 17.
Definition MC_INT_WCAM_ERR : Z := Z.shiftl 1 19.

(* Hub common interrupt status. *)
Definition MC_HUBC_INT_SCRUB_ECC_WR_ACK : Z := Z.shiftl 1 0.

(* Error codes held in the SMMU field of the status register. *)
Definition MC_ERR_DECERR_EMEM : Z := 2.
Definition MC_ERR_SECURITY_TRUSTZONE : Z := 3.
Definition MC_ERR_SECURITY_CARVEOUT : Z := 4.
Definition MC_ERR_INVALID_SMMU_PAGE : Z := 6.

(* Flags of an [mc_error]. *)
Definition E_SMMU : Z := Z.shiftl 1 0.
Definition E_NO_STATUS : Z := Z.shiftl 1 1.
Definition E_TWO_STATUS : Z := Z.shiftl 1 2.

(* Error moving-average tracking. *)
Definition MMA_HISTORY_SAMPLES : Z := 20.

(** The twelve MC_INT_* interrupt causes with their status masks, in the
    order of the header. *)
Definition mc_int_bits : list (string * Z) :=
  [ ("MC_INT_DECERR_EMEM", MC_INT_DECERR_EMEM);
    ("MC_INT_SECURITY_VIOLATION", MC_INT_SECURITY_VIOLATION);
    ("MC_INT_ARBITRATION_EMEM", MC_INT_ARBITRATION_EMEM);
    ("MC_INT_INVALID_SMMU_PAGE", MC_INT_INVALID_SMMU_PAGE);
    ("MC_INT_INVALID_APB_ASID_UPDATE", MC_INT_INVALID_APB_ASID_UPDATE);
    ("MC_INT_DECERR_VPR", MC_INT_DECERR_VPR);
    ("MC_INT_SECERR_SEC", MC_INT_SECERR_SEC);
    ("MC_INT_BBC_PRIVATE_MEM_VIOLATION", MC_INT_BBC_PRIVATE_MEM_VIOLATION);
    ("MC_INT_DECERR_BBC", MC_INT_DECERR_BBC);
    ("MC_INT_DECERR_MTS", MC_INT_DECERR_MTS);
    ("MC_INT_DECERR_GENERALIZED_CARVEOUT", MC_INT_DECERR_GENERALIZED_CARVEOUT);
    ("MC_INT_WCAM_ERR", MC_INT_WCAM_ERR) ].

Definition mc_int_masks : list Z := map snd mc_int_bits.

(** ** The fragment of C the header is written in *)

Module CSyntax.

Inductive ctype : Type :=
| TVoid
| TChar
| TInt
| TUInt
| TTypedef (name : string)          (* u32, u64, irqreturn_t, ... *)
| TStruct (tag : string)
| TConst (t : ctype)
| TPtr (t : ctype)
| TArray (t : ctype)                (* t [] without a bound *)
| TFun (params : list ctype) (ret : ctype).

Inductive expr : Type :=
| Lit (z : Z)
| Str (s : string)
| Par (p : string)                  (* a parameter of the macro *)
| VaArgs                            (* ##__VA_ARGS__ *)
| Ident (x : string)                (* any other identifier *)
| Paste (pre : string) (p : string) (* pre ## p *)
| Shl (a b : expr)
| Shr (a b : expr)
| BitAnd (a b : expr)
| LogNot (a : expr)
| Call (f : string) (args : list expr)
| Init (fields : list (string * expr)).  (* { .f = e, ... } *)

Inductive stmt : Type :=
| SExpr (e : expr)                        (* e; *)
| SIf (c : expr) (body : list stmt)       (* if (c) { body } *)
| SDoWhile (body : list stmt) (c : expr). (* do { body } while (c) *)

Inductive mbody : Type :=
| BEmpty
| BExpr (e : expr)
| BStmt (s : stmt).

Inductive storage : Type := NoClass | ExternClass | StaticClass.

Inductive item : Type :=
| Guard (name : string)                   (* #ifndef name ... #endif *)
| Include (path : string)
| Define (name : string) (params : option (list string)) (body : mbody)
| StructFwd (tag : string)
| StructDef (tag : string) (fields : list (string * ctype))
| Decl (sc : storage) (name : string) (ty : ctype) (init : option expr)
| FunDef (sc : storage) (name : string) (ty : ctype) (body : list stmt).

Definition item_name (i : item) : string :=
  match i with
  | Guard n | Include n | Define n _ _ | StructFwd n | StructDef n _
  | Decl _ n _ _ | FunDef _ n _ _ => n
  end.

End CSyntax.
Import CSyntax.

(** ** The header, item by item

    Comments and blank lines are dropped and parentheses only group; every
    other line of mcerr.h is one entry, in the order of the file.  The
    conditional of lines 22 and 202 is the [Guard]; the macro it tests is
    defined, empty, on line 23. *)

Definition u32 : ctype := TTypedef "u32".
Definition u64 : ctype := TTypedef "u64".
Definition const_char_ptr : ctype := TPtr (TConst TChar).
Definition const_struct_ptr (tag : string) : ctype := TPtr (TConst (TStruct tag)).

Definition bit (n : Z) : mbody := BExpr (Shl (Lit 1) (Lit n)).

Definition mc_error_fields : list (string * ctype) :=
  [ ("msg", const_char_ptr);
    ("sig", u32);
    ("flags", TInt);
    ("stat_reg", u32);
    ("addr_reg", u32) ].

Definition mcerr_chip_specific_fields : list (string * ctype) :=
  [ ("mcerr_info", TPtr (TFun [u32] (const_struct_ptr "mc_error")));
    ("mcerr_print",
       TPtr (TFun [const_struct_ptr "mc_error"; const_struct_ptr "mc_client";
                   u32; TTypedef "phys_addr_t"; TInt; TInt; const_char_ptr]
                  TVoid));
    ("mcerr_debugfs_show",
       TPtr (TFun [TPtr (TStruct "seq_file"); TPtr TVoid] TInt));
    ("disable_interrupt", TPtr (TFun [TUInt] TVoid));
    ("enable_interrupt", TPtr (TFun [TUInt] TVoid));
    ("clear_interrupt", TPtr (TFun [TUInt] TVoid));
    ("log_mcerr_fault", TPtr (TFun [TUInt] TVoid));
    ("nr_clients", TUInt);
    ("intr_descriptions", TPtr const_char_ptr) ].

Definition arb_emem_intr_info_fields : list (string * ctype) :=
  [ ("arb_intr_mma", TInt);
    ("time", u64);
    ("lock", TTypedef "spinlock_t") ].

Definition mcerr_h : list item :=
  [ Guard "__MCERR_H";
    Define "__MCERR_H" None BEmpty;
    Include "linux/kernel.h";
    Include "linux/debugfs.h";
    Include "linux/spinlock.h";
    Include "linux/interrupt.h";
    Include "linux/platform/tegra/mc.h";
    Define "MAX_PRINTS" None (BExpr (Lit 5));
    Define "MC_INT_STATUS" None (BExpr (Lit 0x0));
    Define "MC_INT_MASK" None (BExpr (Lit 0x4));
    Define "MC_ERR_BBC_STATUS" None (BExpr (Lit 0x84));
    Define "MC_ERR_BBC_ADR" None (BExpr (Lit 0x88));
    Define "MC_ERR_SMMU_MASK" None (BExpr (Shl (Lit 0x7) (Lit 25)));
    Define "MC_ERR_SMMU_BITS" (Some ["err"])
      (BExpr (Shr (BitAnd (Par "err") (Ident "MC_ERR_SMMU_MASK")) (Lit 25)));
    Define "MC_ERR_STATUS_WRITE" None (bit 16);
    Define "MC_ERR_STATUS_SECURE" None (bit 17);
    Define "MC_ERR_STATUS_ADR_HI" None (BExpr (Shl (Lit 3) (Lit 20)));
    Define "MC_INT_DECERR_EMEM" None (bit 6);
    Define "MC_INT_SECURITY_VIOLATION" None (bit 8);
    Define "MC_INT_ARBITRATION_EMEM" None (bit 9);
    Define "MC_INT_INVALID_SMMU_PAGE" None (bit 10);
    Define "MC_INT_INVALID_APB_ASID_UPDATE" None (bit 11);
    Define "MC_INT_DECERR_VPR" None (bit 12);
    Define "MC_INT_SECERR_SEC" None (bit 13);
    Define "MC_INT_BBC_PRIVATE_MEM_VIOLATION" None (bit 14);
    Define "MC_INT_DECERR_BBC" None (bit 15);
    Define "MC_INT_DECERR_MTS" None (bit 16);
    Define "MC_INT_DECERR_GENERALIZED_CARVEOUT" None (bit 17);
    Define "MC_INT_WCAM_ERR" None (bit 19);
    Define "MC_HUBC_INT_SCRUB_ECC_WR_ACK" None (bit 0);
    Define "MC_ERR_DECERR_EMEM" None (BExpr (Lit 2));
    Define "MC_ERR_SECURITY_TRUSTZONE" None (BExpr (Lit 3));
    Define "MC_ERR_SECURITY_CARVEOUT" None (BExpr (Lit 4));
    Define "MC_ERR_INVALID_SMMU_PAGE" None (BExpr (Lit 6));
    StructFwd "platform_device";
    Decl NoClass "tegra_mcerr_init"
      (TFun [TPtr (TStruct "dentry"); TPtr (TStruct "platform_device")] TInt)
      None;
    Decl NoClass "tegra_mc_handle_general_fault"
      (TFun [TInt; TInt] (TTypedef "irqreturn_t")) None;
    StructDef "mc_error" mc_error_fields;
    Define "E_SMMU" None (bit 0);
    Define "E_NO_STATUS" None (bit 1);
    Define "E_TWO_STATUS" None (bit 2);
    Decl ExternClass "mc_client_last" TInt None;
    Decl ExternClass "mc_int_mask" u32 None;
    StructDef "mcerr_chip_specific" mcerr_chip_specific_fields;
    Define "client" (Some ["_swgroup"; "_name"; "_swgid"])
      (BExpr (Init [ ("swgroup", Par "_swgroup");
                     ("name", Par "_name");
                     ("swgid", Paste "TEGRA_SWGROUP_" "_swgid") ]));
    Define "dummy_client" None
      (BExpr (Call "client" [Str "dummy"; Str "dummy"; Ident "INVALID"]));
    Define "MC_ERR" (Some ["_sig"; "_msg"; "_flags"; "_stat_reg"; "_addr_reg"])
      (BExpr (Init [ ("sig", Par "_sig");
                     ("msg", Par "_msg");
                     ("flags", Par "_flags");
                     ("stat_reg", Par "_stat_reg");
                     ("addr_reg", Par "_addr_reg") ]));
    Define "mcerr_pr" (Some ["fmt"; "..."])
      (BStmt (SDoWhile
                [ SIf (LogNot (Ident "mcerr_silenced"))
                    [ SExpr (Call "trace_printk" [Par "fmt"; VaArgs]);
                      SExpr (Call "pr_err" [Par "fmt"; VaArgs]) ] ]
                (Lit 0)));
    Define "MMA_HISTORY_SAMPLES" None (BExpr (Lit 20));
    StructDef "arb_emem_intr_info" arb_emem_intr_info_fields;
    Decl ExternClass "mc_clients" (TArray (TStruct "mc_client")) None;
    Decl ExternClass "mcerr_chip_specific_setup"
      (TFun [TPtr (TStruct "mcerr_chip_specific")] TVoid) None;
    Decl ExternClass "mcerr_silenced" u32 None ].

(** ** Reading the header *)

Fixpoint find_macro (hdr : list item) (n : string)
  : option (option (list string) * mbody) :=
  match hdr with
  | [] => None
  | Define m ps b :: rest =>
      if String.eqb m n then Some (ps, b) else find_macro rest n
  | _ :: rest => find_macro rest n
  end.

Fixpoint find_struct (hdr : list item) (tag : string)
  : option (list (string * ctype)) :=
  match hdr with
  | [] => None
  | StructDef t fs :: rest =>
      if String.eqb t tag then Some fs else find_struct rest tag
  | _ :: rest => find_struct rest tag
  end.

Fixpoint lookup {A : Type} (n : string) (l : list (string * A)) : option A :=
  match l with
  | [] => None
  | (m, a) :: rest => if String.eqb m n then Some a else lookup n rest
  end.

(** The declarations and definitions of the C identifier [n]. *)
Definition decls_of (hdr : list item) (n : string) : list item :=
  filter (fun i => match i with
                   | Decl _ m _ _ | FunDef _ m _ _ => String.eqb m n
                   | _ => false
                   end) hdr.

(** *** Declarations against definitions

    At file scope an object declared without [extern], or with an
    initialiser, is (at least tentatively) defined and takes storage; a
    function is defined by its body only. *)

Definition defines_object (i : item) : bool :=
  match i with
  | Decl _ _ (TFun _ _) _ => false
  | Decl ExternClass _ _ None => false
  | Decl _ _ _ _ => true
  | _ => false
  end.

Definition defines_function (i : item) : bool :=
  match i with
  | FunDef _ _ _ _ => true
  | _ => false
  end.

Definition is_extern_decl (i : item) : bool :=
  match i with
  | Decl ExternClass _ _ None => true
  | _ => false
  end.

(** [n] is declared, and every declaration of it is [extern] with neither
    initialiser nor body. *)
Definition extern_only (hdr : list item) (n : string) : bool :=
  match decls_of hdr n with
  | [] => false
  | ds => forallb is_extern_decl ds
  end.

(** *** Kinds of structure members *)

Definition is_callback (ty : ctype) : bool :=
  match ty with
  | TPtr (TFun _ _) => true
  | _ => false
  end.

Definition is_numeric (ty : ctype) : bool :=
  match ty with
  | TChar | TInt | TUInt => true
  | TTypedef n => String.eqb n "u32" || String.eqb n "u64"
  | _ => false
  end.

(** A pointer to pointers: the way a C structure refers to an array of
    strings that lives elsewhere. *)
Definition is_array_ref (ty : ctype) : bool :=
  match ty with
  | TArray _ => true
  | TPtr (TPtr _) => true
  | _ => false
  end.

Definition callbacks (fs : list (string * ctype)) : list string :=
  map fst (filter (fun f => is_callback (snd f)) fs).

Definition data_members (fs : list (string * ctype)) : list (string * ctype) :=
  filter (fun f => negb (is_callback (snd f))) fs.

(** *** Executable content of a macro body *)

Fixpoint uses_param (e : expr) : bool :=
  match e with
  | Par _ | VaArgs | Paste _ _ => true
  | Lit _ | Str _ | Ident _ => false
  | Shl a b | Shr a b | BitAnd a b => uses_param a || uses_param b
  | LogNot a => uses_param a
  | Call _ args => existsb uses_param args
  | Init fs => existsb (fun f => uses_param (snd f)) fs
  end.

(** [x] is declared by the header as a C object or function. *)
Definition is_declared (hdr : list item) (x : string) : bool :=
  match decls_of hdr x with
  | [] => false
  | _ => true
  end.

(** The value is not known before run time: the expression mentions a
    macro parameter or something the header declares. *)
Fixpoint varies (hdr : list item) (e : expr) : bool :=
  match e with
  | Par _ | VaArgs | Paste _ _ => true
  | Lit _ | Str _ => false
  | Ident x => is_declared hdr x
  | Shl a b | Shr a b | BitAnd a b => varies hdr a || varies hdr b
  | LogNot a => varies hdr a
  | Call _ args => existsb (varies hdr) args
  | Init fs => existsb (fun f => varies hdr (snd f)) fs
  end.

Definition is_macro (hdr : list item) (n : string) : bool :=
  match find_macro hdr n with
  | Some _ => true
  | None => false
  end.

(** An operator applied to something that depends on a macro argument or
    on a declared object (the value is not known before the invocation),
    or a call of something that is no macro of the header, hence a C
    function. *)
Fixpoint computes (hdr : list item) (e : expr) : bool :=
  match e with
  | Shl a b | Shr a b | BitAnd a b =>
      varies hdr a || varies hdr b || computes hdr a || computes hdr b
  | LogNot a => varies hdr a || computes hdr a
  | Call f args => negb (is_macro hdr f) || existsb (computes hdr) args
  | Init fs => existsb (fun f => computes hdr (snd f)) fs
  | _ => false
  end.

Fixpoint branches (s : stmt) : bool :=
  match s with
  | SExpr _ => false
  | SIf _ _ => true
  | SDoWhile body _ => existsb branches body
  end.

Fixpoint calls (s : stmt) : list string :=
  match s with
  | SExpr (Call f _) => [f]
  | SExpr _ => []
  | SIf _ body => flat_map calls body
  | SDoWhile body _ => flat_map calls body
  end.

(** An item carries executable logic when it is a function body, a macro
    that expands to a statement, or a macro that computes on its
    arguments. *)
Definition executable (hdr : list item) (i : item) : bool :=
  match i with
  | FunDef _ _ _ _ => true
  | Define _ _ (BStmt _) => true
  | Define _ _ (BExpr e) => computes hdr e
  | _ => false
  end.

Definition function_like (i : item) : bool :=
  match i with
  | Define _ (Some _) _ => true
  | _ => false
  end.

(** *** Integer value of a macro

    Macro names are expanded through [hdr]; [fuel] bounds the depth of the
    expansion. *)

Definition c_not (z : Z) : Z := if z =? 0 then 1 else 0.
Definition c_true (z : Z) : bool := negb (z =? 0).

Definition lift2 (f : Z -> Z -> Z) (x y : option Z) : option Z :=
  match x, y with
  | Some a, Some b => Some (f a b)
  | _, _ => None
  end.

Fixpoint sequence (l : list (option Z)) : option (list Z) :=
  match l with
  | [] => Some []
  | Some z :: rest => option_map (cons z) (sequence rest)
  | None :: _ => None
  end.

Fixpoint eval_int (fuel : nat) (hdr : list item) (env : list (string * Z))
  (e : expr) : option Z :=
  match fuel with
  | O => None
  | S fuel' =>
      match e with
      | Lit z => Some z
      | Par p => lookup p env
      | Ident x =>
          match find_macro hdr x with
          | Some (None, BExpr b) => eval_int fuel' hdr [] b
          | _ => None
          end
      | Shl a b =>
          lift2 Z.shiftl (eval_int fuel' hdr env a) (eval_int fuel' hdr env b)
      | Shr a b =>
          lift2 Z.shiftr (eval_int fuel' hdr env a) (eval_int fuel' hdr env b)
      | BitAnd a b =>
          lift2 Z.land (eval_int fuel' hdr env a) (eval_int fuel' hdr env b)
      | LogNot a => option_map c_not (eval_int fuel' hdr env a)
      | Call f args =>
          match find_macro hdr f, sequence (map (eval_int fuel' hdr env) args) with
          | Some (Some ps, BExpr b), Some vs =>
              if (List.length ps =? List.length vs)%nat
              then eval_int fuel' hdr (combine ps vs) b
              else None
          | _, _ => None
          end
      | _ => None
      end
  end.

Definition macro_value (hdr : list item) (n : string) : option Z :=
  eval_int 8 hdr [] (Ident n).

Definition macro_apply (hdr : list item) (n : string) (args : list Z) : option Z :=
  eval_int 8 hdr [] (Call n (map Lit args)).

Definition is_int_expr (e : expr) : bool :=
  match e with
  | Lit _ | Ident _ | Shl _ _ | Shr _ _ | BitAnd _ _ | LogNot _ => true
  | _ => false
  end.

(** The object-like macros of [hdr] whose body is an integer expression. *)
Definition int_macro_names (hdr : list item) : list string :=
  flat_map (fun i => match i with
                     | Define n None (BExpr e) => if is_int_expr e then [n] else []
                     | _ => []
                     end) hdr.

(** The object-like macros of [hdr] of any other form. *)
Definition other_object_macros (hdr : list item) : list string :=
  flat_map (fun i => match i with
                     | Define n None (BExpr e) => if is_int_expr e then [] else [n]
                     | Define n None _ => [n]
                     | _ => []
                     end) hdr.

(** The object-like integer macros with the values of the shallow
    embedding, in the order of the header. *)
Definition int_macros : list (string * Z) :=
  [ ("MAX_PRINTS", MAX_PRINTS);
    ("MC_INT_STATUS", MC_INT_STATUS);
    ("MC_INT_MASK", MC_INT_MASK);
    ("MC_ERR_BBC_STATUS", MC_ERR_BBC_STATUS);
    ("MC_ERR_BBC_ADR", MC_ERR_BBC_ADR);
    ("MC_ERR_SMMU_MASK", MC_ERR_SMMU_MASK);
    ("MC_ERR_STATUS_WRITE", MC_ERR_STATUS_WRITE);
    ("MC_ERR_STATUS_SECURE", MC_ERR_STATUS_SECURE);
    ("MC_ERR_STATUS_ADR_HI", MC_ERR_STATUS_ADR_HI) ]
  ++ mc_int_bits ++
  [ ("MC_HUBC_INT_SCRUB_ECC_WR_ACK", MC_HUBC_INT_SCRUB_ECC_WR_ACK);
    ("MC_ERR_DECERR_EMEM", MC_ERR_DECERR_EMEM);
    ("MC_ERR_SECURITY_TRUSTZONE", MC_ERR_SECURITY_TRUSTZONE);
    ("MC_ERR_SECURITY_CARVEOUT", MC_ERR_SECURITY_CARVEOUT);
    ("MC_ERR_INVALID_SMMU_PAGE", MC_ERR_INVALID_SMMU_PAGE);
    ("E_SMMU", E_SMMU);
    ("E_NO_STATUS", E_NO_STATUS);
    ("E_TWO_STATUS", E_TWO_STATUS);
    ("MMA_HISTORY_SAMPLES", MMA_HISTORY_SAMPLES) ].

(** ** Structures (mcerr.h lines 83-89, 98-165)

    A [const char *] is a string or NULL; a [u32], an [int] and an
    [unsigned int] are integers in their range. *)

Record mc_error : Type := {
  msg : option string;
  sig : Z;
  flags : Z;
  stat_reg : Z;
  addr_reg : Z
}.

(** [struct mc_client] is declared in linux/platform/tegra/mc.h; the record
    has the members that the [client] macro initialises. *)
Record mc_client : Type := {
  swgroup : option string;
  name : option string;
  swgid : Z
}.

(** MC_ERR(_sig, _msg, _flags, _stat_reg, _addr_reg): an initialiser
    converts each value to the type of its member, [u32] for sig, stat_reg
    and addr_reg, [int] for flags. *)
Definition MC_ERR (_sig : Z) (_msg : option string)
  (_flags _stat_reg _addr_reg : Z) : mc_error :=
  {| sig := to_u32 _sig; msg := _msg; flags := to_int _flags;
     stat_reg := to_u32 _stat_reg; addr_reg := to_u32 _addr_reg |}.

Section Clients.

(** The enumerators TEGRA_SWGROUP_<id> of mc.h, by their suffix. *)
Variable TEGRA_SWGROUP : string -> Z.

(** client(_swgroup, _name, _swgid) *)
Definition client (_swgroup _name : option string) (_swgid : string) : mc_client :=
  {| swgroup := _swgroup; name := _name; swgid := TEGRA_SWGROUP _swgid |}.

Definition dummy_client : mc_client :=
  client (Some "dummy") (Some "dummy") "INVALID".

End Clients.

(** ** Kernel state and output

    The objects that the header declares [extern] live in chip-specific
    code; [kernel] holds their current values, and [heap] every other
    object, by address.  The two printing functions come from
    linux/kernel.h: a call to either is an event. *)

Record kernel : Type := {
  mc_client_last : Z;
  mc_int_mask : Z;
  mc_clients : list mc_client;
  mcerr_silenced : Z;
  heap : Z -> Z
}.

Inductive value : Type :=
| VInt (z : Z)
| VStr (s : string).

Inductive event : Type :=
| EvTracePrintk (fmt : string) (args : list value)
| EvPrErr (fmt : string) (args : list value).

(** A C expression or statement: it reads and writes the kernel state and
    emits events. *)
Definition M (A : Type) : Type := kernel -> A * kernel * list event.

Definition ret {A : Type} (a : A) : M A := fun k => (a, k, []).

Definition bind {A B : Type} (c : M A) (f : A -> M B) : M B :=
  fun k =>
    let '(a, k1, out1) := c k in
    let '(b, k2, out2) := f a k1 in
    (b, k2, (out1 ++ out2)%list).

Notation "x <- c ;; f" := (bind c (fun x => f))
  (at level 61, c at next level, right associativity).
Notation "c ;; f" := (bind c (fun _ => f))
  (at level 61, right associativity).

Definition state_after {A : Type} (r : A * kernel * list event) : kernel :=
  snd (fst r).
Definition emitted {A : Type} (r : A * kernel * list event) : list event :=
  snd r.

Definition read_mcerr_silenced : M Z := fun k => (mcerr_silenced k, k, []).

Definition trace_printk (fmt : string) (args : list value) : M unit :=
  fun k => (tt, k, [EvTracePrintk fmt args]).

Definition pr_err (fmt : string) (args : list value) : M unit :=
  fun k => (tt, k, [EvPrErr fmt args]).

(** mcerr_pr(fmt, ...): the variadic arguments are expressions, pasted into
    both calls and evaluated where they are pasted; the body of
    [do { } while (0)] runs once. *)
Definition mcerr_pr (fmt : string) (args : M (list value)) : M unit :=
  s <- read_mcerr_silenced ;;
  if c_true (c_not s) then
    (a <- args ;; trace_printk fmt a) ;;
    (a <- args ;; pr_err fmt a)
  else ret tt.

(** Structure of callbacks that the chip-specific code fills in.  Pointers
    to [seq_file] and to private data are addresses. *)
Record mcerr_chip_specific : Type := {
  mcerr_info : Z -> M (option mc_error);
  mcerr_print : option mc_error -> option mc_client -> Z -> Z -> Z -> Z ->
                option string -> M unit;
  mcerr_debugfs_show : Z -> Z -> M Z;
  disable_interrupt : Z -> M unit;
  enable_interrupt : Z -> M unit;
  clear_interrupt : Z -> M unit;
  log_mcerr_fault : Z -> M unit;
  nr_clients : Z;
  intr_descriptions : list (option string)
}.

(** ** Running a statement macro of the header

    The invocation binds the first parameter to the format string [fmt] and
    the variadic arguments to the expression [va].  The result is [false]
    when the statement leaves the fragment or [fuel] runs out. *)

Definition read_global (x : string) : M (option Z) :=
  fun k =>
    (if String.eqb x "mcerr_silenced" then Some (mcerr_silenced k)
     else if String.eqb x "mc_int_mask" then Some (mc_int_mask k)
     else if String.eqb x "mc_client_last" then Some (mc_client_last k)
     else None, k, []).

Fixpoint eval_rt (e : expr) : M (option Z) :=
  match e with
  | Lit z => ret (Some z)
  | Ident x => read_global x
  | LogNot a => v <- eval_rt a ;; ret (option_map c_not v)
  | _ => ret None
  end.

Definition call_rt (f fmt : string) (a : list value) : M bool :=
  if String.eqb f "trace_printk" then (trace_printk fmt a ;; ret true)
  else if String.eqb f "pr_err" then (pr_err fmt a ;; ret true)
  else ret false.

Fixpoint exec (fuel : nat) (fmt : string) (va : M (list value)) (s : stmt)
  : M bool :=
  match fuel with
  | O => ret false
  | S fuel' =>
      let fix block (l : list stmt) : M bool :=
        match l with
        | [] => ret true
        | s1 :: rest =>
            ok <- exec fuel' fmt va s1 ;;
            if ok : bool then block rest else ret false
        end in
      match s with
      | SExpr (Call f [Par _; VaArgs]) => a <- va ;; call_rt f fmt a
      | SExpr _ => ret false
      | SIf c body =>
          v <- eval_rt c ;;
          match v with
          | Some z => if c_true z then block body else ret true
          | None => ret false
          end
      | SDoWhile body c =>
          ok <- block body ;;
          if ok : bool then
            v <- eval_rt c ;;
            match v with
            | Some z => if c_true z then exec fuel' fmt va s else ret true
            | None => ret false
            end
          else ret false
      end
  end.

Definition exec_macro (hdr : list item) (n fmt : string) (va : M (list value))
  : option (M bool) :=
  match find_macro hdr n with
  | Some (Some _, BStmt s) => Some (exec 8 fmt va s)
  | _ => None
  end.

(** Two kernel states that differ in [mcerr_silenced] only. *)
Definition kernel_with (silenced : Z) : kernel :=
  {| mc_client_last := 0; mc_int_mask := 0; mc_clients := [];
     mcerr_silenced := silenced; heap := fun _ => 0 |}.

(** ** Words made of the header's bits

    A status, mask or flag word in which the bits [ms] are raised is their
    bitwise OR; code tests a bit [m] of a word with [word & m]. *)

Definition set_bits (ms : list Z) : Z := fold_right Z.lor 0 ms.

(** The fields of the error status register (lines 42-46) and the flags of
    an [mc_error] (lines 91-93). *)
Definition status_fields : list Z :=
  [MC_ERR_SMMU_MASK; MC_ERR_STATUS_WRITE; MC_ERR_STATUS_SECURE;
   MC_ERR_STATUS_ADR_HI].


(** ** Expanding the initialiser macros

    The preprocessor replaces a parameter of a function-like macro by the
    argument, which it expands first; the operand of [##] is pasted as it
    was written, and must be an identifier here.  The result is scanned
    again.  [fuel] bounds the depth of the expansion; the header has no
    macro that names itself. *)

Fixpoint collect {A : Type} (l : list (option A)) : option (list A) :=
  match l with
  | [] => Some []
  | Some a :: rest => option_map (cons a) (collect rest)
  | None :: _ => None
  end.

Definition lift_expr2 (f : expr -> expr -> expr) (x y : option expr)
  : option expr :=
  match x, y with
  | Some a, Some b => Some (f a b)
  | _, _ => None
  end.

Definition field_of (d : string) (x : option expr) : option (string * expr) :=
  option_map (pair d) x.

Fixpoint subst (pre : expr -> option expr) (env : list (string * expr))
  (e : expr) : option expr :=
  match e with
  | Lit _ | Str _ | Ident _ => Some e
  | VaArgs => None
  | Par p =>
      match lookup p env with
      | Some a => pre a
      | None => None
      end
  | Paste stem p =>
      match lookup p env with
      | Some (Ident x) => Some (Ident (stem ++ x)%string)
      | _ => None
      end
  | Shl a b => lift_expr2 Shl (subst pre env a) (subst pre env b)
  | Shr a b => lift_expr2 Shr (subst pre env a) (subst pre env b)
  | BitAnd a b => lift_expr2 BitAnd (subst pre env a) (subst pre env b)
  | LogNot a => option_map LogNot (subst pre env a)
  | Call f args => option_map (Call f) (collect (map (subst pre env) args))
  | Init fs =>
      option_map Init
        (collect (map (fun f => field_of (fst f) (subst pre env (snd f))) fs))
  end.

Fixpoint expand (fuel : nat) (hdr : list item) (e : expr) : option expr :=
  match fuel with
  | O => None
  | S fuel' =>
      match e with
      | Lit _ | Str _ => Some e
      | Par _ | VaArgs | Paste _ _ => None
      | Ident x =>
          match find_macro hdr x with
          | Some (None, BExpr b) => expand fuel' hdr b
          | Some (None, _) => None
          | _ => Some e
          end
      | Shl a b => lift_expr2 Shl (expand fuel' hdr a) (expand fuel' hdr b)
      | Shr a b => lift_expr2 Shr (expand fuel' hdr a) (expand fuel' hdr b)
      | BitAnd a b =>
          lift_expr2 BitAnd (expand fuel' hdr a) (expand fuel' hdr b)
      | LogNot a => option_map LogNot (expand fuel' hdr a)
      | Call f args =>
          match find_macro hdr f with
          | Some (Some ps, BExpr b) =>
              if (List.length ps =? List.length args)%nat then
                match subst (expand fuel' hdr) (combine ps args) b with
                | Some b' => expand fuel' hdr b'
                | None => None
                end
              else None
          | Some _ => None
          | None =>
              option_map (Call f) (collect (map (expand fuel' hdr) args))
          end
      | Init fs =>
          option_map Init
            (collect (map (fun f => field_of (fst f) (expand fuel' hdr (snd f)))
                        fs))
      end
  end.

(** *** From an expanded initialiser to the structure

    A member without designator is zero, or NULL. *)

(** The value stored in a member of integer type [ty]. *)
Definition convert (ty : ctype) (z : Z) : option Z :=
  match ty with
  | TInt => Some (to_int z)
  | TUInt => Some (to_u32 z)
  | TTypedef n => if String.eqb n "u32" then Some (to_u32 z) else None
  | _ => None
  end.

Definition int_member (hdr : list item) (members : list (string * ctype))
  (fs : list (string * expr)) (d : string) : option Z :=
  match lookup d members with
  | None => None
  | Some ty =>
      match lookup d fs with
      | None => Some 0
      | Some e =>
          match eval_int 8 hdr [] e with
          | Some z => convert ty z
          | None => None
          end
      end
  end.

(** A string member takes a string literal or a null pointer, written
    NULL or 0. *)
Definition str_member (fs : list (string * expr)) (d : string)
  : option (option string) :=
  match lookup d fs with
  | None => Some None
  | Some (Str s) => Some (Some s)
  | Some (Ident x) => if String.eqb x "NULL" then Some None else None
  | Some (Lit z) => if z =? 0 then Some None else None
  | Some _ => None
  end.

Definition build_mc_error (hdr : list item) (e : expr) : option mc_error :=
  match e, find_struct hdr "mc_error" with
  | Init fs, Some members =>
      match str_member fs "msg", int_member hdr members fs "sig",
            int_member hdr members fs "flags",
            int_member hdr members fs "stat_reg",
            int_member hdr members fs "addr_reg" with
      | Some m, Some s, Some f, Some st, Some a =>
          Some {| msg := m; sig := s; flags := f; stat_reg := st; addr_reg := a |}
      | _, _, _, _, _ => None
      end
  | _, _ => None
  end.

(** The enumerator TEGRA_SWGROUP_<id> has the value [ids id]. *)
Definition swgroup_enum (ids : string -> Z) (x : string) : option Z :=
  if String.prefix "TEGRA_SWGROUP_" x
  then Some (ids (String.substring 14 (String.length x - 14) x))
  else None.

Definition build_mc_client (ids : string -> Z) (e : expr) : option mc_client :=
  match e with
  | Init fs =>
      match str_member fs "swgroup", str_member fs "name", lookup "swgid" fs with
      | Some g, Some n, Some (Ident x) =>
          option_map (fun v => {| swgroup := g; name := n; swgid := v |})
                     (swgroup_enum ids x)
      | Some g, Some n, None =>
          Some {| swgroup := g; name := n; swgid := 0 |}
      | _, _, _ => None
      end
  | _ => None
  end.

Definition designators (b : mbody) : list string :=
  match b with
  | BExpr (Init fs) => map fst fs
  | _ => []
  end.

(** *** Constants and initialiser templates

    After expansion a constant is made of literals, operators on constants
    and enumerators of mc.h; it names no parameter, no object and no
    function.  An initialiser template gives every member a bare parameter
    or a pasted one. *)

Definition is_enumerator (x : string) : bool := String.prefix "TEGRA_SWGROUP_" x.

Fixpoint constant_expr (e : expr) : bool :=
  match e with
  | Lit _ | Str _ => true
  | Ident x => is_enumerator x
  | Shl a b | Shr a b | BitAnd a b => constant_expr a && constant_expr b
  | LogNot a => constant_expr a
  | Init fs => forallb (fun f => constant_expr (snd f)) fs
  | Call _ _ | Par _ | VaArgs | Paste _ _ => false
  end.

Definition constant_macro (hdr : list item) (n : string) : bool :=
  match expand 8 hdr (Ident n) with
  | Some e => is_macro hdr n && constant_expr e
  | None => false
  end.

Definition object_macro_names (hdr : list item) : list string :=
  flat_map (fun i => match i with
                     | Define n None _ => [n]
                     | _ => []
                     end) hdr.

Definition copies_only (b : mbody) : bool :=
  match b with
  | BExpr (Init fs) =>
      forallb (fun f => match snd f with
                        | Par _ | Paste _ _ => true
                        | _ => false
                        end) fs
  | _ => false
  end.

(** ** Several messages in a row *)

Fixpoint mcerr_pr_all (msgs : list (string * list value)) : M unit :=
  match msgs with
  | [] => ret tt
  | (fmt, vs) :: rest => mcerr_pr fmt (ret vs) ;; mcerr_pr_all rest
  end.

Definition printed (msgs : list (string * list value)) : list event :=
  flat_map (fun m => [EvTracePrintk (fst m) (snd m); EvPrErr (fst m) (snd m)])
           msgs.

(** * Properties *)

(** Case analysis on membership in a list that is written out. *)
Ltac each_member H :=
  simpl in H;
  repeat (destruct H as [H | H]; [try (injection H as ? ?); subst |]);
  try contradiction.

(** ** Bit-level helpers *)

Lemma testbit_block (w n i : Z) :
  0 <= w -> 0 <= n ->
  Z.testbit (Z.shiftl (Z.ones w) n) i = (n <=? i) && (i <? n + w).
Proof.
  intros Hw Hn.
  destruct (Z.ltb_spec i 0) as [Hneg | Hpos].
  - rewrite Z.testbit_neg_r by assumption.
    symmetry. apply andb_false_intro1. apply Z.leb_gt. lia.
  - rewrite Z.shiftl_spec by assumption.
    rewrite Z.testbit_ones by assumption.
    destruct (Z.leb_spec n i), (Z.leb_spec 0 (i - n)),
             (Z.ltb_spec (i - n) w), (Z.ltb_spec i (n + w));
      simpl; try reflexivity; lia.
Qed.

Lemma testbit_single (n i : Z) :
  0 <= n -> Z.testbit (Z.shiftl 1 n) i = (i =? n).
Proof.
  intros Hn.
  rewrite Z.shiftl_1_l, Z.pow2_bits_eqb by assumption.
  apply Z.eqb_sym.
Qed.

Lemma MC_ERR_SMMU_BITS_land (err : Z) :
  MC_ERR_SMMU_BITS err = Z.land (Z.shiftr err 25) 7.
Proof.
  unfold MC_ERR_SMMU_BITS, MC_ERR_SMMU_MASK.
  rewrite Z.shiftr_land.
  reflexivity.
Qed.

Lemma MC_ERR_SMMU_BITS_div_mod (err : Z) :
  MC_ERR_SMMU_BITS err = (err / 2 ^ 25) mod 8.
Proof.
  rewrite MC_ERR_SMMU_BITS_land.
  change 7 with (Z.ones 3).
  rewrite Z.land_ones by lia.
  rewrite Z.shiftr_div_pow2 by lia.
  reflexivity.
Qed.

Lemma MC_ERR_SMMU_BITS_testbit (err i : Z) :
  0 <= i ->
  Z.testbit (MC_ERR_SMMU_BITS err) i = (i <? 3) && Z.testbit err (i + 25).
Proof.
  intros Hi.
  rewrite MC_ERR_SMMU_BITS_land, Z.land_spec, Z.shiftr_spec by assumption.
  change 7 with (Z.ones 3).
  rewrite Z.testbit_ones_nonneg by lia.
  apply andb_comm.
Qed.

Example MC_ERR_SMMU_BITS_ex1 : MC_ERR_SMMU_BITS 0x0C012345 = 6.
Proof. reflexivity. Qed.

Example MC_ERR_SMMU_BITS_ex2 : MC_ERR_SMMU_BITS 0xF1FFFFFF = 0.
Proof. reflexivity. Qed.

Example MC_ERR_SMMU_BITS_ex3 :
  MC_ERR_SMMU_BITS 0x06000000 = MC_ERR_DECERR_EMEM + 1.
Proof. reflexivity. Qed.

(** ** The SMMU field of the status register *)

(** C2.  For a 32-bit unsigned [err], MC_ERR_SMMU_BITS(err) is
    (err >> 25) mod 8: bit i of the result is bit 25 + i of [err] for
    i = 0, 1, 2 and zero above, so the result lies in 0..7. *)
Theorem MC_ERR_SMMU_BITS_field (err : Z) (Hu32 : is_u32 err) :
  MC_ERR_SMMU_BITS err = (err / 2 ^ 25) mod 8 /\
  MC_ERR_SMMU_BITS err = Z.shiftr err 25 mod 8 /\
  (forall i, 0 <= i ->
     Z.testbit (MC_ERR_SMMU_BITS err) i = (i <? 3) && Z.testbit err (i + 25)) /\
  0 <= MC_ERR_SMMU_BITS err <= 7.
Proof.
  pose proof (MC_ERR_SMMU_BITS_div_mod err) as Hdm.
  repeat split.
  - exact Hdm.
  - rewrite Z.shiftr_div_pow2 by lia. exact Hdm.
  - intros i Hi. apply MC_ERR_SMMU_BITS_testbit. exact Hi.
  - rewrite Hdm. apply Z.mod_pos_bound. lia.
  - rewrite Hdm. pose proof (Z.mod_pos_bound (err / 2 ^ 25) 8). lia.
Qed.

Lemma MC_ERR_SMMU_BITS_field_witness :
  is_u32 0x0C012345 /\
  MC_ERR_SMMU_BITS 0x0C012345 = (0x0C012345 / 2 ^ 25) mod 8 /\
  0 <= MC_ERR_SMMU_BITS 0x0C012345 <= 7.
Proof.
  assert (Hu32 : is_u32 0x0C012345) by (unfold is_u32; lia).
  pose proof (MC_ERR_SMMU_BITS_field 0x0C012345 Hu32) as [Hv [_ [_ Hr]]].
  split; [exact Hu32 | split; [exact Hv | exact Hr]].
Defined.

(** ** Values of the integer macros *)

(** Every object-like integer macro of the header expands, without any
    argument and without the kernel state, to the value the embedding gives
    it; the embedding leaves none out. *)
Lemma int_macros_agree :
  int_macro_names mcerr_h = map fst int_macros /\
  Forall (fun nv => macro_value mcerr_h (fst nv) = Some (snd nv)) int_macros.
Proof.
  split; [reflexivity |].
  unfold int_macros, mc_int_bits; simpl.
  repeat (constructor; [reflexivity |]).
  constructor.
Qed.

(** Every one of them fits the C type [int], so no shift overflows. *)
Lemma int_macros_fit_int : Forall (fun nv => is_int (snd nv)) int_macros.
Proof.
  unfold int_macros, mc_int_bits; simpl.
  repeat (constructor;
    [unfold is_int; split; [apply Z.leb_le | apply Z.ltb_lt]; reflexivity |]).
  constructor.
Qed.

Lemma MC_ERR_SMMU_BITS_agree (err : Z) :
  macro_apply mcerr_h "MC_ERR_SMMU_BITS" [err] = Some (MC_ERR_SMMU_BITS err).
Proof. reflexivity. Qed.

(** C3.  The masks of the error status register: MC_ERR_SMMU_MASK is
    0x7 << 25 = 0x0E000000 (bits 25, 26, 27), MC_ERR_STATUS_WRITE is bit 16
    (0x10000), MC_ERR_STATUS_SECURE is bit 17 (0x20000),
    MC_ERR_STATUS_ADR_HI is bits 20 and 21 (0x300000); WRITE and SECURE
    share no bit with each other, with the SMMU mask or with ADR_HI. *)
Theorem status_masks :
  (macro_value mcerr_h "MC_ERR_SMMU_MASK" = Some MC_ERR_SMMU_MASK /\
   macro_value mcerr_h "MC_ERR_STATUS_WRITE" = Some MC_ERR_STATUS_WRITE /\
   macro_value mcerr_h "MC_ERR_STATUS_SECURE" = Some MC_ERR_STATUS_SECURE /\
   macro_value mcerr_h "MC_ERR_STATUS_ADR_HI" = Some MC_ERR_STATUS_ADR_HI) /\
  (MC_ERR_SMMU_MASK = 0x7 * 2 ^ 25 /\ MC_ERR_SMMU_MASK = 0x0E000000 /\
   MC_ERR_STATUS_WRITE = 2 ^ 16 /\ MC_ERR_STATUS_WRITE = 0x10000 /\
   MC_ERR_STATUS_SECURE = 2 ^ 17 /\ MC_ERR_STATUS_SECURE = 0x20000 /\
   MC_ERR_STATUS_ADR_HI = 3 * 2 ^ 20 /\ MC_ERR_STATUS_ADR_HI = 0x300000) /\
  (forall i, Z.testbit MC_ERR_SMMU_MASK i = (25 <=? i) && (i <? 28)) /\
  (forall i, Z.testbit MC_ERR_STATUS_WRITE i = (i =? 16)) /\
  (forall i, Z.testbit MC_ERR_STATUS_SECURE i = (i =? 17)) /\
  (forall i, Z.testbit MC_ERR_STATUS_ADR_HI i = (20 <=? i) && (i <? 22)) /\
  (Z.land MC_ERR_STATUS_WRITE MC_ERR_STATUS_SECURE = 0 /\
   Z.land MC_ERR_STATUS_WRITE MC_ERR_SMMU_MASK = 0 /\
   Z.land MC_ERR_STATUS_WRITE MC_ERR_STATUS_ADR_HI = 0 /\
   Z.land MC_ERR_STATUS_SECURE MC_ERR_SMMU_MASK = 0 /\
   Z.land MC_ERR_STATUS_SECURE MC_ERR_STATUS_ADR_HI = 0).
Proof.
  split; [repeat split |].
  split; [repeat split |].
  split; [intro i; exact (testbit_block 3 25 i ltac:(lia) ltac:(lia)) |].
  split; [intro i; exact (testbit_single 16 i ltac:(lia)) |].
  split; [intro i; exact (testbit_single 17 i ltac:(lia)) |].
  split; [intro i; exact (testbit_block 2 20 i ltac:(lia) ltac:(lia)) |].
  repeat split.
Qed.

(** C4.  The error codes: MC_ERR_DECERR_EMEM = 2,
    MC_ERR_SECURITY_TRUSTZONE = 3, MC_ERR_SECURITY_CARVEOUT = 4,
    MC_ERR_INVALID_SMMU_PAGE = 6, pairwise distinct. *)
Theorem error_codes :
  (macro_value mcerr_h "MC_ERR_DECERR_EMEM" = Some MC_ERR_DECERR_EMEM /\
   macro_value mcerr_h "MC_ERR_SECURITY_TRUSTZONE" = Some MC_ERR_SECURITY_TRUSTZONE /\
   macro_value mcerr_h "MC_ERR_SECURITY_CARVEOUT" = Some MC_ERR_SECURITY_CARVEOUT /\
   macro_value mcerr_h "MC_ERR_INVALID_SMMU_PAGE" = Some MC_ERR_INVALID_SMMU_PAGE) /\
  (MC_ERR_DECERR_EMEM = 2 /\ MC_ERR_SECURITY_TRUSTZONE = 3 /\
   MC_ERR_SECURITY_CARVEOUT = 4 /\ MC_ERR_INVALID_SMMU_PAGE = 6) /\
  NoDup [MC_ERR_DECERR_EMEM; MC_ERR_SECURITY_TRUSTZONE;
         MC_ERR_SECURITY_CARVEOUT; MC_ERR_INVALID_SMMU_PAGE].
Proof.
  split; [repeat split |].
  split; [repeat split |].
  repeat (constructor; [simpl; intuition discriminate |]).
  constructor.
Qed.

(** C5.  The register offsets: MC_INT_STATUS = 0x0, MC_INT_MASK = 0x4,
    MC_ERR_BBC_STATUS = 0x84, MC_ERR_BBC_ADR = 0x88, pairwise distinct and
    each a multiple of 4. *)
Theorem register_offsets :
  (macro_value mcerr_h "MC_INT_STATUS" = Some MC_INT_STATUS /\
   macro_value mcerr_h "MC_INT_MASK" = Some MC_INT_MASK /\
   macro_value mcerr_h "MC_ERR_BBC_STATUS" = Some MC_ERR_BBC_STATUS /\
   macro_value mcerr_h "MC_ERR_BBC_ADR" = Some MC_ERR_BBC_ADR) /\
  (MC_INT_STATUS = 0x0 /\ MC_INT_MASK = 0x4 /\
   MC_ERR_BBC_STATUS = 0x84 /\ MC_ERR_BBC_ADR = 0x88) /\
  NoDup [MC_INT_STATUS; MC_INT_MASK; MC_ERR_BBC_STATUS; MC_ERR_BBC_ADR] /\
  Forall (fun off => off mod 4 = 0)
    [MC_INT_STATUS; MC_INT_MASK; MC_ERR_BBC_STATUS; MC_ERR_BBC_ADR].
Proof.
  split; [repeat split |].
  split; [repeat split |].
  split.
  - repeat (constructor; [simpl; intuition discriminate |]).
    constructor.
  - repeat (constructor; [reflexivity |]).
    constructor.
Qed.

(** ** Interrupt status bits *)

(** Two different powers of two share no bit. *)
Lemma pow2_disjoint (j k : Z) :
  0 <= j -> 0 <= k -> 2 ^ j <> 2 ^ k -> Z.land (2 ^ j) (2 ^ k) = 0.
Proof.
  intros Hj Hk Hne.
  apply Z.bits_inj'; intros i Hi.
  rewrite Z.land_spec, Z.bits_0, !Z.pow2_bits_eqb by assumption.
  destruct (Z.eqb_spec j i), (Z.eqb_spec k i); simpl; try reflexivity.
  exfalso; apply Hne; congruence.
Qed.

Lemma mc_int_masks_pow2 :
  Forall (fun m => exists k, 6 <= k <= 19 /\ m = 2 ^ k /\
                     forall i, Z.testbit m i = (i =? k)) mc_int_masks.
Proof.
  unfold mc_int_masks, mc_int_bits; simpl.
  repeat (constructor;
    [match goal with
     | |- exists k, _ /\ ?m = _ /\ _ =>
         let n := eval cbv in (Z.log2 m) in
         exists n; split; [lia | split; [reflexivity |]];
         intro i; exact (testbit_single n i ltac:(lia))
     end |]).
  constructor.
Qed.

(** C7.  The twelve MC_INT_* masks, MC_INT_DECERR_EMEM to MC_INT_WCAM_ERR:
    each is a power of two 2^k with 6 <= k <= 19, hence a 32-bit value with
    exactly one bit set; they are pairwise distinct, and two different
    ones share no bit, so two causes with different names are signalled by
    different status bits. *)
Theorem mc_int_bits_one_hot :
  List.length mc_int_bits = 12%nat /\
  Forall (fun nm => macro_value mcerr_h (fst nm) = Some (snd nm)) mc_int_bits /\
  Forall (fun m => exists k, 6 <= k <= 19 /\ m = 2 ^ k /\
                     forall i, Z.testbit m i = (i =? k)) mc_int_masks /\
  Forall is_u32 mc_int_masks /\
  NoDup mc_int_masks /\
  NoDup (map fst mc_int_bits) /\
  (forall m1 m2, In m1 mc_int_masks -> In m2 mc_int_masks ->
     m1 <> m2 -> Z.land m1 m2 = 0) /\
  (forall c1 m1 c2 m2, In (c1, m1) mc_int_bits -> In (c2, m2) mc_int_bits ->
     c1 <> c2 -> m1 <> m2 /\ Z.land m1 m2 = 0).
Proof.
  split; [reflexivity |].
  split.
  { unfold mc_int_bits. repeat (constructor; [reflexivity |]). constructor. }
  split; [exact mc_int_masks_pow2 |].
  split.
  { unfold mc_int_masks, mc_int_bits; simpl.
    repeat (constructor;
      [unfold is_u32; split; [apply Z.leb_le | apply Z.ltb_lt]; reflexivity |]).
    constructor. }
  split.
  { unfold mc_int_masks, mc_int_bits; simpl.
    repeat (constructor; [simpl; intuition discriminate |]).
    constructor. }
  split.
  { unfold mc_int_bits; simpl.
    repeat (constructor; [simpl; intuition discriminate |]).
    constructor. }
  assert (Hdisj : forall m1 m2, In m1 mc_int_masks -> In m2 mc_int_masks ->
                    m1 <> m2 -> Z.land m1 m2 = 0).
  { intros m1 m2 H1 H2 Hne.
    pose proof mc_int_masks_pow2 as Hpow.
    rewrite Forall_forall in Hpow.
    destruct (Hpow m1 H1) as (k1 & Hk1 & -> & _).
    destruct (Hpow m2 H2) as (k2 & Hk2 & -> & _).
    apply pow2_disjoint; [lia | lia | exact Hne]. }
  split; [exact Hdisj |].
  intros c1 m1 c2 m2 H1 H2 Hne.
  assert (Hm : m1 <> m2).
  { unfold mc_int_bits in H1, H2.
    each_member H1; each_member H2;
      solve [exfalso; apply Hne; reflexivity | discriminate]. }
  split; [exact Hm |].
  apply Hdisj; [| | exact Hm].
  - apply (in_map snd) in H1. exact H1.
  - apply (in_map snd) in H2. exact H2.
Qed.

(** ** Structures *)

Example MC_ERR_ex1 :
  MC_ERR MC_INT_DECERR_EMEM (Some "EMEM address decode error") 0 0x08 0x0c =
  {| msg := Some "EMEM address decode error"; sig := 64; flags := 0;
     stat_reg := 8; addr_reg := 12 |}.
Proof. reflexivity. Qed.

(** The record members are the members of the C structure, in order. *)
Lemma mc_error_members :
  find_struct mcerr_h "mc_error" = Some mc_error_fields /\
  map fst mc_error_fields = ["msg"; "sig"; "flags"; "stat_reg"; "addr_reg"].
Proof. split; reflexivity. Qed.

(** C6.  [struct mcerr_chip_specific] has exactly seven function-pointer
    members (mcerr_info, mcerr_print, mcerr_debugfs_show, disable_interrupt,
    enable_interrupt, clear_interrupt, log_mcerr_fault) and two data
    members: the number nr_clients (unsigned int) and intr_descriptions,
    declared as a pointer to [const char] pointers, which refers to the
    array of descriptions.  mcerr_info
    takes a u32 and returns a pointer to a [struct mc_error], whose members
    are msg, sig, flags, stat_reg and addr_reg. *)
Theorem mcerr_chip_specific_members :
  find_struct mcerr_h "mcerr_chip_specific" = Some mcerr_chip_specific_fields /\
  callbacks mcerr_chip_specific_fields =
    ["mcerr_info"; "mcerr_print"; "mcerr_debugfs_show"; "disable_interrupt";
     "enable_interrupt"; "clear_interrupt"; "log_mcerr_fault"] /\
  List.length (callbacks mcerr_chip_specific_fields) = 7%nat /\
  data_members mcerr_chip_specific_fields =
    [("nr_clients", TUInt);
     ("intr_descriptions", TPtr (TPtr (TConst TChar)))] /\
  is_numeric TUInt = true /\
  is_array_ref (TPtr (TPtr (TConst TChar))) = true /\
  NoDup (map fst mcerr_chip_specific_fields) /\
  lookup "mcerr_info" mcerr_chip_specific_fields =
    Some (TPtr (TFun [TTypedef "u32"] (TPtr (TConst (TStruct "mc_error"))))) /\
  option_map (map fst) (find_struct mcerr_h "mc_error") =
    Some ["msg"; "sig"; "flags"; "stat_reg"; "addr_reg"].
Proof.
  repeat (split; [reflexivity |]).
  split.
  - simpl. repeat (constructor; [simpl; intuition discriminate |]).
    constructor.
  - split; reflexivity.
Qed.

(** ** The logging macro *)

Lemma c_true_c_not (s : Z) : c_true (c_not s) = (s =? 0).
Proof.
  unfold c_true, c_not.
  destruct (s =? 0); reflexivity.
Qed.

Lemma mcerr_pr_silenced (fmt : string) (args : M (list value)) (k : kernel) :
  mcerr_silenced k <> 0 -> mcerr_pr fmt args k = (tt, k, []).
Proof.
  intros Hs.
  unfold mcerr_pr, bind, read_mcerr_silenced.
  rewrite c_true_c_not.
  apply Z.eqb_neq in Hs. rewrite Hs.
  reflexivity.
Qed.

Lemma mcerr_pr_audible (fmt : string) (args : M (list value)) (k : kernel) :
  mcerr_silenced k = 0 ->
  exists a1 k1 o1 a2 k2 o2,
    args k = (a1, k1, o1) /\ args k1 = (a2, k2, o2) /\
    mcerr_pr fmt args k =
      (tt, k2, (o1 ++ [EvTracePrintk fmt a1]) ++ o2 ++ [EvPrErr fmt a2])%list.
Proof.
  intros Hs.
  destruct (args k) as [[a1 k1] o1] eqn:E1.
  destruct (args k1) as [[a2 k2] o2] eqn:E2.
  exists a1, k1, o1, a2, k2, o2.
  split; [reflexivity | split; [exact E2 |]].
  unfold mcerr_pr, bind, read_mcerr_silenced, trace_printk, pr_err.
  rewrite c_true_c_not, Hs; simpl.
  rewrite E1, E2.
  reflexivity.
Qed.

Lemma mcerr_pr_keeps_state (fmt : string) (vs : list value) (k : kernel) :
  state_after (mcerr_pr fmt (ret vs) k) = k.
Proof.
  destruct (Z.eq_dec (mcerr_silenced k) 0) as [Hz | Hnz].
  - destruct (mcerr_pr_audible fmt (ret vs) k Hz)
      as (a1 & k1 & o1 & a2 & k2 & o2 & E1 & E2 & Hrun).
    rewrite Hrun; unfold state_after; cbn [fst snd].
    unfold ret in E1; inversion E1; subst k1.
    unfold ret in E2; inversion E2; subst k2.
    reflexivity.
  - rewrite (mcerr_pr_silenced fmt (ret vs) k Hnz). reflexivity.
Qed.

Example mcerr_pr_ex1 :
  mcerr_pr "%s" (ret [VStr "gpu"]) (kernel_with 0) =
    (tt, kernel_with 0,
     [EvTracePrintk "%s" [VStr "gpu"]; EvPrErr "%s" [VStr "gpu"]]).
Proof. reflexivity. Qed.

Example mcerr_pr_ex2 :
  mcerr_pr "%s" (ret [VStr "gpu"]) (kernel_with 1) = (tt, kernel_with 1, []).
Proof. reflexivity. Qed.

(** The statement of the header, run on the same invocation, does what
    [mcerr_pr] does. *)
Lemma mcerr_pr_agree (fmt : string) (args : M (list value)) :
  exists run,
    exec_macro mcerr_h "mcerr_pr" fmt args = Some run /\
    forall k, run k = (true, state_after (mcerr_pr fmt args k),
                       emitted (mcerr_pr fmt args k)).
Proof.
  eexists; split; [reflexivity |].
  intro k.
  destruct (Z.eq_dec (mcerr_silenced k) 0) as [Hz | Hnz].
  - destruct (mcerr_pr_audible fmt args k Hz)
      as (a1 & k1 & o1 & a2 & k2 & o2 & E1 & E2 & Hrun).
    rewrite Hrun; unfold state_after, emitted; cbn [fst snd].
    cbv [exec bind ret eval_rt read_global call_rt trace_printk pr_err
         String.eqb Ascii.eqb Bool.eqb option_map].
    rewrite c_true_c_not, Hz; cbn [Z.eqb].
    rewrite E1, E2.
    cbv [c_true Z.eqb negb].
    rewrite !app_nil_r. cbn [app].
    reflexivity.
  - rewrite (mcerr_pr_silenced fmt args k Hnz).
    unfold state_after, emitted; cbn [fst snd].
    cbv [exec bind ret eval_rt read_global call_rt trace_printk pr_err
         String.eqb Ascii.eqb Bool.eqb option_map].
    rewrite c_true_c_not.
    apply Z.eqb_neq in Hnz; rewrite Hnz.
    reflexivity.
Qed.

(** C8.  An invocation of mcerr_pr emits output exactly when
    mcerr_silenced is zero.  Then it calls trace_printk and, after it,
    pr_err, each with the format and the arguments as they evaluate at that
    call.  When mcerr_silenced is not zero it emits nothing, evaluates no
    argument and leaves the state as it was. *)
Theorem mcerr_pr_emits_iff_not_silenced
  (fmt : string) (args : M (list value)) (k : kernel) :
  (emitted (mcerr_pr fmt args k) <> [] <-> mcerr_silenced k = 0) /\
  (mcerr_silenced k = 0 ->
     exists a1 k1 o1 a2 k2 o2,
       args k = (a1, k1, o1) /\ args k1 = (a2, k2, o2) /\
       mcerr_pr fmt args k =
         (tt, k2, (o1 ++ [EvTracePrintk fmt a1]) ++ o2 ++ [EvPrErr fmt a2])%list) /\
  (mcerr_silenced k = 0 ->
     forall vs, mcerr_pr fmt (ret vs) k =
                  (tt, k, [EvTracePrintk fmt vs; EvPrErr fmt vs])) /\
  (mcerr_silenced k <> 0 -> mcerr_pr fmt args k = (tt, k, [])).
Proof.
  split; [| split; [| split]].
  - split.
    + intros Hout.
      destruct (Z.eq_dec (mcerr_silenced k) 0) as [Hz | Hnz]; [exact Hz |].
      rewrite (mcerr_pr_silenced fmt args k Hnz) in Hout.
      exfalso; apply Hout; reflexivity.
    + intros Hz.
      destruct (mcerr_pr_audible fmt args k Hz)
        as (a1 & k1 & o1 & a2 & k2 & o2 & _ & _ & Hrun).
      rewrite Hrun; unfold emitted; simpl.
      destruct o1; discriminate.
  - apply mcerr_pr_audible.
  - intros Hz vs.
    destruct (mcerr_pr_audible fmt (ret vs) k Hz)
      as (a1 & k1 & o1 & a2 & k2 & o2 & E1 & E2 & Hrun).
    unfold ret in E1; inversion E1; subst.
    unfold ret in E2; inversion E2; subst.
    exact Hrun.
  - apply mcerr_pr_silenced.
Qed.

Lemma mcerr_pr_emits_iff_not_silenced_witness :
  mcerr_silenced (kernel_with 0) = 0 /\
  mcerr_silenced (kernel_with 2) <> 0 /\
  mcerr_pr "%d" (ret [VInt 7]) (kernel_with 0) =
    (tt, kernel_with 0, [EvTracePrintk "%d" [VInt 7]; EvPrErr "%d" [VInt 7]]) /\
  mcerr_pr "%d" (ret [VInt 7]) (kernel_with 2) = (tt, kernel_with 2, []).
Proof.
  assert (H0 : mcerr_silenced (kernel_with 0) = 0) by reflexivity.
  assert (H2 : mcerr_silenced (kernel_with 2) <> 0) by (simpl; lia).
  split; [exact H0 | split; [exact H2 | split]].
  - destruct (mcerr_pr_emits_iff_not_silenced "%d" (ret [VInt 7]) (kernel_with 0))
      as (_ & _ & Hpure & _).
    exact (Hpure H0 [VInt 7]).
  - destruct (mcerr_pr_emits_iff_not_silenced "%d" (ret [VInt 7]) (kernel_with 2))
      as (_ & _ & _ & Hquiet).
    exact (Hquiet H2).
Defined.

(** ** Extern declarations *)

(** C9.  mc_client_last, mc_int_mask, mc_clients, mcerr_silenced and
    mcerr_chip_specific_setup are declared [extern], without initialiser or
    body, and are no macros; the header defines no object and no function
    at all, and its one statement, mcerr_pr, reads mcerr_silenced and
    assigns nothing: the values of the five come from outside the header. *)
Theorem chip_symbols_extern_only :
  Forall (fun n => extern_only mcerr_h n = true /\ find_macro mcerr_h n = None)
    ["mc_client_last"; "mc_int_mask"; "mc_clients"; "mcerr_silenced";
     "mcerr_chip_specific_setup"] /\
  map item_name (filter is_extern_decl mcerr_h) =
    ["mc_client_last"; "mc_int_mask"; "mc_clients";
     "mcerr_chip_specific_setup"; "mcerr_silenced"] /\
  filter defines_object mcerr_h = [] /\
  filter defines_function mcerr_h = [] /\
  (forall fmt vs k, state_after (mcerr_pr fmt (ret vs) k) = k).
Proof.
  split.
  - repeat (constructor; [split; reflexivity |]).
    constructor.
  - do 3 (split; [reflexivity |]).
    exact mcerr_pr_keeps_state.
Qed.

(** ** What in the header is executable *)

(** *** Conversions and expansions used below *)

Lemma to_u32_range (z : Z) : is_u32 (to_u32 z).
Proof.
  unfold is_u32, to_u32. apply Z.mod_pos_bound. lia.
Qed.

Lemma to_int_range (z : Z) : is_int (to_int z).
Proof.
  unfold is_int, to_int; cbv zeta.
  pose proof (Z.mod_pos_bound z (2 ^ 32) ltac:(lia)) as Hb.
  destruct (Z.ltb_spec (z mod 2 ^ 32) (2 ^ 31)); lia.
Qed.

Lemma to_u32_small (z : Z) : is_u32 z -> to_u32 z = z.
Proof.
  unfold is_u32, to_u32. intros Hz. apply Z.mod_small. exact Hz.
Qed.

Lemma to_int_small (z : Z) : is_int z -> to_int z = z.
Proof.
  unfold is_int, to_int; cbv zeta. intros Hz.
  destruct (Z.le_gt_cases 0 z) as [Hnn | Hneg].
  - rewrite Z.mod_small by lia.
    destruct (Z.ltb_spec z (2 ^ 31)); lia.
  - replace (z mod 2 ^ 32) with (z + 2 ^ 32).
    + destruct (Z.ltb_spec (z + 2 ^ 32) (2 ^ 31)); lia.
    + symmetry. rewrite <- (Z.mod_add z 1 (2 ^ 32)) by lia.
      apply Z.mod_small. lia.
Qed.

Lemma MC_ERR_in_range (s f st a : Z) (m : option string) :
  is_u32 s -> is_int f -> is_u32 st -> is_u32 a ->
  MC_ERR s m f st a =
    {| msg := m; sig := s; flags := f; stat_reg := st; addr_reg := a |}.
Proof.
  intros Hs Hf Hst Ha. unfold MC_ERR.
  rewrite (to_u32_small s Hs), (to_int_small f Hf),
          (to_u32_small st Hst), (to_u32_small a Ha).
  reflexivity.
Qed.

Lemma MC_ERR_expansion (s f st a : Z) (m : string) :
  option_map (build_mc_error mcerr_h)
    (expand 8 mcerr_h (Call "MC_ERR" [Lit s; Str m; Lit f; Lit st; Lit a])) =
  Some (Some (MC_ERR s (Some m) f st a)).
Proof. reflexivity. Qed.

Lemma substring_all (s : string) : String.substring 0 (String.length s) s = s.
Proof.
  induction s as [| c s IH]; [reflexivity |].
  simpl. rewrite IH. reflexivity.
Qed.

Lemma swgroup_enum_paste (ids : string -> Z) (id : string) :
  swgroup_enum ids ("TEGRA_SWGROUP_" ++ id) = Some (ids id).
Proof.
  unfold swgroup_enum.
  cbn [String.append String.prefix Ascii.ascii_dec Ascii.ascii_rec
       Ascii.ascii_rect].
  simpl.
  replace (String.prefix "" id) with true by (destruct id; reflexivity).
  rewrite Nat.sub_0_r, substring_all.
  reflexivity.
Qed.

Lemma client_expansion (ids : string -> Z) (g n id : string) :
  option_map (build_mc_client ids)
    (expand 8 mcerr_h (Call "client" [Str g; Str n; Ident id])) =
  Some (Some (client ids (Some g) (Some n) id)).
Proof.
  change (expand 8 mcerr_h (Call "client" [Str g; Str n; Ident id])) with
    (Some (Init [("swgroup", Str g); ("name", Str n);
                 ("swgid", Ident ("TEGRA_SWGROUP_" ++ id))])).
  cbn [option_map build_mc_client str_member lookup String.eqb Ascii.eqb
       Bool.eqb].
  rewrite swgroup_enum_paste. reflexivity.
Qed.

(** C1, as the header has it.  Apart from the include guard __MCERR_H,
    which is defined empty, every object-like macro is a constant: an
    integer constant expression, or for dummy_client a constant
    initialiser.  No structure, prototype or extern declaration carries a
    body.  Of the four function-like macros, client and MC_ERR only place
    their arguments in an initialiser (each member a bare or a pasted
    parameter, converted to the type of the member); MC_ERR_SMMU_BITS
    computes a mask and a shift of its argument, and mcerr_pr is a
    statement that branches on mcerr_silenced and calls trace_printk and
    pr_err: these two are the executable items of the header, and the only
    ones. *)
Theorem executable_items :
  map item_name (filter (executable mcerr_h) mcerr_h) = ["MC_ERR_SMMU_BITS"; "mcerr_pr"] /\
  map item_name (filter function_like mcerr_h) =
    ["MC_ERR_SMMU_BITS"; "client"; "MC_ERR"; "mcerr_pr"] /\
  (int_macro_names mcerr_h = map fst int_macros /\
   Forall (fun nv => macro_value mcerr_h (fst nv) = Some (snd nv)) int_macros) /\
  (other_object_macros mcerr_h = ["__MCERR_H"; "dummy_client"] /\
   find_macro mcerr_h "__MCERR_H" = Some (None, BEmpty) /\
   filter (fun n => negb (constant_macro mcerr_h n)) (object_macro_names mcerr_h) =
     ["__MCERR_H"]) /\
  (forall ids,
     option_map (build_mc_client ids) (expand 8 mcerr_h (Ident "dummy_client")) =
     Some (Some (dummy_client ids))) /\
  filter defines_function mcerr_h = [] /\
  Forall (fun n => exists ps b, find_macro mcerr_h n = Some (Some ps, b) /\
                               copies_only b = true) ["client"; "MC_ERR"] /\
  (forall s m f st a,
     option_map (build_mc_error mcerr_h)
       (expand 8 mcerr_h (Call "MC_ERR" [Lit s; Str m; Lit f; Lit st; Lit a])) =
     Some (Some (MC_ERR s (Some m) f st a)) /\
     (is_u32 s -> is_int f -> is_u32 st -> is_u32 a ->
      MC_ERR s (Some m) f st a =
        {| msg := Some m; sig := s; flags := f; stat_reg := st; addr_reg := a |})) /\
  (forall ids g n id,
     option_map (build_mc_client ids)
       (expand 8 mcerr_h (Call "client" [Str g; Str n; Ident id])) =
     Some (Some (client ids (Some g) (Some n) id))) /\
  (forall err,
     macro_apply mcerr_h "MC_ERR_SMMU_BITS" [err] = Some (MC_ERR_SMMU_BITS err) /\
     MC_ERR_SMMU_BITS err = Z.land (Z.shiftr err 25) 7) /\
  (find_macro mcerr_h "mcerr_pr" =
     Some (Some ["fmt"; "..."],
           BStmt (SDoWhile
                    [SIf (LogNot (Ident "mcerr_silenced"))
                       [SExpr (Call "trace_printk" [Par "fmt"; VaArgs]);
                        SExpr (Call "pr_err" [Par "fmt"; VaArgs])]]
                    (Lit 0))) /\
   forall s, find_macro mcerr_h "mcerr_pr" = Some (Some ["fmt"; "..."], BStmt s) ->
     branches s = true /\ calls s = ["trace_printk"; "pr_err"]) /\
  (forall fmt args,
     exists run,
       exec_macro mcerr_h "mcerr_pr" fmt args = Some run /\
       forall k, run k = (true, state_after (mcerr_pr fmt args k),
                          emitted (mcerr_pr fmt args k))).
Proof.
  split; [reflexivity |].
  split; [reflexivity |].
  split; [exact int_macros_agree |].
  split; [repeat split |].
  split.
  { intro ids.
    pose proof (swgroup_enum_paste ids "INVALID") as Hinv.
    cbn [String.append] in Hinv.
    change (expand 8 mcerr_h (Ident "dummy_client")) with
      (Some (Init [("swgroup", Str "dummy"); ("name", Str "dummy");
                   ("swgid", Ident "TEGRA_SWGROUP_INVALID")])).
    cbn [option_map build_mc_client str_member lookup String.eqb Ascii.eqb
         Bool.eqb].
    rewrite Hinv. reflexivity. }
  split; [reflexivity |].
  split.
  { repeat (constructor; [eexists; eexists; split; reflexivity |]).
    constructor. }
  split.
  { intros s m f st a. split; [apply MC_ERR_expansion | apply MC_ERR_in_range]. }
  split; [exact client_expansion |].
  split.
  { intro err. split; [reflexivity | apply MC_ERR_SMMU_BITS_land]. }
  split; [| exact mcerr_pr_agree].
  split; [reflexivity |].
  intros s Hs. simpl in Hs. inversion Hs; subst.
  split; reflexivity.
Qed.

(** C1, as stated, fails: MC_ERR_SMMU_BITS is not a constant function (it
    maps 0 to 0 and 0x02000000 to 1), and mcerr_pr branches (with the same
    arguments it prints when mcerr_silenced is 0 and stays quiet when it is
    1); the header has executable items. *)
Lemma not_all_declarative :
  forallb (fun i => negb (executable mcerr_h i)) mcerr_h = false /\
  (is_u32 0 /\ is_u32 0x02000000 /\
   MC_ERR_SMMU_BITS 0 = 0 /\ MC_ERR_SMMU_BITS 0x02000000 = 1) /\
  ~ (forall a b : Z, is_u32 a -> is_u32 b ->
       MC_ERR_SMMU_BITS a = MC_ERR_SMMU_BITS b) /\
  (emitted (mcerr_pr "mcerr" (ret []) (kernel_with 0)) =
     [EvTracePrintk "mcerr" []; EvPrErr "mcerr" []] /\
   emitted (mcerr_pr "mcerr" (ret []) (kernel_with 1)) = []) /\
  ~ (forall k1 k2 : kernel,
       emitted (mcerr_pr "mcerr" (ret []) k1) =
       emitted (mcerr_pr "mcerr" (ret []) k2)).
Proof.
  assert (H0 : is_u32 0) by (unfold is_u32; lia).
  assert (H1 : is_u32 0x02000000) by (unfold is_u32; lia).
  split; [reflexivity |].
  split; [repeat split; first [reflexivity | apply H0 | apply H1] |].
  split.
  { intro Hconst. specialize (Hconst 0 0x02000000 H0 H1). discriminate Hconst. }
  split; [split; reflexivity |].
  intro Hconst. specialize (Hconst (kernel_with 0) (kernel_with 1)).
  discriminate Hconst.
Qed.

(** * Further properties of the bit fields *)

(** ** The SMMU field, read back *)

Lemma SMMU_field_shiftl (err : Z) :
  Z.shiftl (MC_ERR_SMMU_BITS err) 25 = Z.land err MC_ERR_SMMU_MASK.
Proof.
  apply Z.bits_inj'; intros i Hi.
  rewrite Z.shiftl_spec, Z.land_spec by assumption.
  unfold MC_ERR_SMMU_MASK. change 0x7 with (Z.ones 3).
  rewrite testbit_block by lia.
  destruct (Z.leb_spec 25 i) as [Hge | Hlt].
  - rewrite MC_ERR_SMMU_BITS_testbit by lia.
    replace (i - 25 + 25) with i by lia.
    destruct (Z.ltb_spec (i - 25) 3), (Z.ltb_spec i (25 + 3));
      try lia; simpl; destruct (Z.testbit err i); reflexivity.
  - rewrite Z.testbit_neg_r by lia.
    simpl. destruct (Z.testbit err i); reflexivity.
Qed.

(** Shifting MC_ERR_SMMU_BITS(err) back to bit 25 gives
    err & MC_ERR_SMMU_MASK: the macro loses nothing of the masked field,
    and it is zero exactly when the field is. *)
Theorem MC_ERR_SMMU_BITS_shift_back (err : Z) :
  Z.shiftl (MC_ERR_SMMU_BITS err) 25 = Z.land err MC_ERR_SMMU_MASK /\
  (MC_ERR_SMMU_BITS err = 0 <-> Z.land err MC_ERR_SMMU_MASK = 0).
Proof.
  pose proof (SMMU_field_shiftl err) as Hback.
  split; [exact Hback |].
  split; intro Hz.
  - rewrite <- Hback, Hz. reflexivity.
  - unfold MC_ERR_SMMU_BITS. rewrite Hz. reflexivity.
Qed.

(** Two status words have the same MC_ERR_SMMU_BITS exactly when they agree
    under MC_ERR_SMMU_MASK: the macro looks at bits 25..27 and at nothing
    else. *)
Theorem MC_ERR_SMMU_BITS_eq_iff (a b : Z) :
  MC_ERR_SMMU_BITS a = MC_ERR_SMMU_BITS b <->
  Z.land a MC_ERR_SMMU_MASK = Z.land b MC_ERR_SMMU_MASK.
Proof.
  split; intro H.
  - rewrite <- (SMMU_field_shiftl a), <- (SMMU_field_shiftl b), H.
    reflexivity.
  - unfold MC_ERR_SMMU_BITS. rewrite H. reflexivity.
Qed.

(** A field value v in 0..7 placed at bit 25 of a word whose SMMU field is
    clear is what MC_ERR_SMMU_BITS reads back, so every value of 0..7 is
    the field of some status word. *)
Theorem MC_ERR_SMMU_BITS_round_trip (v other : Z)
  (Hv : 0 <= v <= 7) (Hother : Z.land other MC_ERR_SMMU_MASK = 0) :
  MC_ERR_SMMU_BITS (Z.lor other (Z.shiftl v 25)) = v.
Proof.
  unfold MC_ERR_SMMU_BITS.
  rewrite Z.land_lor_distr_l, Hother, Z.lor_0_l.
  unfold MC_ERR_SMMU_MASK.
  rewrite <- Z.shiftl_land.
  change 0x7 with (Z.ones 3).
  rewrite Z.land_ones by lia.
  rewrite Z.mod_small by (change (2 ^ 3) with 8; lia).
  rewrite Z.shiftr_shiftl_l by lia.
  reflexivity.
Qed.

Lemma MC_ERR_SMMU_BITS_round_trip_witness :
  MC_ERR_SMMU_BITS (Z.lor 0x00310007 (Z.shiftl MC_ERR_INVALID_SMMU_PAGE 25)) =
  MC_ERR_INVALID_SMMU_PAGE.
Proof.
  apply (MC_ERR_SMMU_BITS_round_trip MC_ERR_INVALID_SMMU_PAGE 0x00310007).
  - unfold MC_ERR_INVALID_SMMU_PAGE. lia.
  - reflexivity.
Defined.

(** ** Fields of the status register *)

Lemma land_disjoint_bits (a b : Z) :
  Z.land a b = 0 -> forall i, Z.testbit a i && Z.testbit b i = false.
Proof.
  intros H i.
  rewrite <- Z.land_spec, H.
  apply Z.bits_0.
Qed.

Lemma land_lor_disjoint (w a b : Z) :
  Z.land a b = 0 -> Z.land (Z.lor w a) b = Z.land w b.
Proof.
  intros H.
  rewrite Z.land_lor_distr_l, H.
  apply Z.lor_0_r.
Qed.

Lemma land_ldiff_disjoint (w a b : Z) :
  Z.land a b = 0 -> Z.land (Z.ldiff w a) b = Z.land w b.
Proof.
  intros H.
  apply Z.bits_inj'; intros i _.
  rewrite !Z.land_spec, Z.ldiff_spec.
  pose proof (land_disjoint_bits a b H i) as Hi.
  destruct (Z.testbit w i), (Z.testbit a i), (Z.testbit b i);
    simpl in *; congruence.
Qed.

Lemma status_fields_disjoint (m1 m2 : Z) :
  In m1 status_fields -> In m2 status_fields -> m1 <> m2 -> Z.land m1 m2 = 0.
Proof.
  intros H1 H2 Hne.
  unfold status_fields in H1, H2.
  each_member H1; each_member H2;
    solve [reflexivity | exfalso; apply Hne; reflexivity].
Qed.

(** The four fields of the error status register (the SMMU field, WRITE,
    SECURE, ADR_HI) share no bit, all six pairs of them.  Raising or
    clearing one field of a status word leaves what code reads through the
    mask of another, and MC_ERR_SMMU_BITS does not see the WRITE, SECURE
    and ADR_HI bits. *)
Theorem status_fields_independent :
  (forall m1 m2, In m1 status_fields -> In m2 status_fields -> m1 <> m2 ->
     Z.land m1 m2 = 0) /\
  (forall w m1 m2, In m1 status_fields -> In m2 status_fields -> m1 <> m2 ->
     Z.land (Z.lor w m1) m2 = Z.land w m2 /\
     Z.land (Z.ldiff w m1) m2 = Z.land w m2) /\
  (forall w m,
     In m [MC_ERR_STATUS_WRITE; MC_ERR_STATUS_SECURE; MC_ERR_STATUS_ADR_HI] ->
     MC_ERR_SMMU_BITS (Z.lor w m) = MC_ERR_SMMU_BITS w /\
     MC_ERR_SMMU_BITS (Z.ldiff w m) = MC_ERR_SMMU_BITS w).
Proof.
  split; [exact status_fields_disjoint |].
  split.
  - intros w m1 m2 H1 H2 Hne.
    pose proof (status_fields_disjoint m1 m2 H1 H2 Hne) as Hd.
    split; [apply land_lor_disjoint | apply land_ldiff_disjoint]; exact Hd.
  - intros w m Hm.
    assert (Hd : Z.land m MC_ERR_SMMU_MASK = 0).
    { each_member Hm; reflexivity. }
    unfold MC_ERR_SMMU_BITS.
    rewrite (land_lor_disjoint w m _ Hd), (land_ldiff_disjoint w m _ Hd).
    split; reflexivity.
Qed.

(** ** Words of single bits *)

(** In a word made of powers of two, the test [word & m] for a power of two
    [m] gives [m] when [m] was raised and 0 otherwise. *)
Lemma set_bits_test (ms : list Z) (m : Z) :
  (forall x, In x (m :: ms) -> exists k, 0 <= k /\ x = 2 ^ k) ->
  Z.land (set_bits ms) m = if in_dec Z.eq_dec m ms then m else 0.
Proof.
  induction ms as [| a ms IH]; intros Hpow.
  - reflexivity.
  - assert (Hrest : forall x, In x (m :: ms) -> exists k, 0 <= k /\ x = 2 ^ k).
    { intros x [Hx | Hx]; apply Hpow; [left | right; right]; assumption. }
    specialize (IH Hrest).
    change (set_bits (a :: ms)) with (Z.lor a (set_bits ms)).
    rewrite Z.land_lor_distr_l, IH.
    destruct (Z.eq_dec a m) as [-> | Hne].
    + rewrite Z.land_diag.
      destruct (in_dec Z.eq_dec m (m :: ms)) as [_ | Hout];
        [| exfalso; apply Hout; left; reflexivity].
      destruct (in_dec Z.eq_dec m ms); [apply Z.lor_diag | apply Z.lor_0_r].
    + destruct (Hpow a (or_intror (or_introl eq_refl))) as (j & Hj & ->).
      destruct (Hpow m (or_introl eq_refl)) as (k & Hk & ->).
      rewrite (pow2_disjoint j k Hj Hk Hne), Z.lor_0_l.
      destruct (in_dec Z.eq_dec (2 ^ k) ms) as [Hin | Hout],
               (in_dec Z.eq_dec (2 ^ k) (2 ^ j :: ms)) as [Hin' | Hout'];
        try reflexivity.
      * exfalso; apply Hout'; right; exact Hin.
      * destruct Hin' as [Heq | Hin']; [exfalso; apply Hne; exact Heq |].
        exfalso; apply Hout; exact Hin'.
Qed.

Lemma set_bits_raised (ms : list Z) (m : Z) :
  (forall x, In x (m :: ms) -> exists k, 0 <= k /\ x = 2 ^ k) ->
  (Z.land (set_bits ms) m <> 0 <-> In m ms).
Proof.
  intros Hpow.
  rewrite (set_bits_test ms m Hpow).
  destruct (Hpow m (or_introl eq_refl)) as (k & Hk & ->).
  assert (Hpos : 0 < 2 ^ k) by (apply Z.pow_pos_nonneg; lia).
  destruct (in_dec Z.eq_dec (2 ^ k) ms) as [Hin | Hout]; split; intro H.
  - exact Hin.
  - lia.
  - exfalso; apply H; reflexivity.
  - exfalso; apply Hout; exact H.
Qed.

Lemma lor_below (n a b : Z) :
  0 < n -> 0 <= a < 2 ^ n -> 0 <= b < 2 ^ n -> 0 <= Z.lor a b < 2 ^ n.
Proof.
  intros Hn Ha Hb.
  assert (Hnn : 0 <= Z.lor a b) by (apply Z.lor_nonneg; lia).
  split; [exact Hnn |].
  destruct (Z.eq_dec (Z.lor a b) 0) as [-> | Hnz];
    [apply Z.pow_pos_nonneg; lia |].
  apply Z.log2_lt_pow2; [lia |].
  rewrite Z.log2_lor by lia.
  assert (Hlog : forall x, 0 <= x < 2 ^ n -> Z.log2 x < n).
  { intros x Hx.
    destruct (Z.eq_dec x 0) as [-> | Hx0]; [simpl; lia |].
    apply Z.log2_lt_pow2; lia. }
  pose proof (Hlog a Ha). pose proof (Hlog b Hb).
  lia.
Qed.

Lemma set_bits_below (n : Z) (ms : list Z) :
  0 < n -> (forall x, In x ms -> 0 <= x < 2 ^ n) -> 0 <= set_bits ms < 2 ^ n.
Proof.
  intros Hn.
  induction ms as [| a ms IH]; intros Hall.
  - simpl. split; [lia | apply Z.pow_pos_nonneg; lia].
  - change (set_bits (a :: ms)) with (Z.lor a (set_bits ms)).
    apply lor_below; [exact Hn | apply Hall; left; reflexivity |].
    apply IH. intros x Hx. apply Hall. right. exact Hx.
Qed.

Lemma mc_int_masks_pow2_of (x : Z) :
  In x mc_int_masks -> exists k, 0 <= k /\ x = 2 ^ k.
Proof.
  intros Hx.
  pose proof mc_int_masks_pow2 as Hpow.
  rewrite Forall_forall in Hpow.
  destruct (Hpow x Hx) as (k & Hk & Hxk & _).
  exists k. split; [lia | exact Hxk].
Qed.

(** ** Interrupt status words *)

(** A status word in which any of the MC_INT_* causes are raised, tested
    with [status & m] for one of the twelve masks, gives [m] when that
    cause was raised and 0 when not: the word tells exactly which causes
    are pending. *)
Theorem mc_int_status_decode (causes : list Z) (m : Z)
  (Hcauses : incl causes mc_int_masks) (Hm : In m mc_int_masks) :
  Z.land (set_bits causes) m = (if in_dec Z.eq_dec m causes then m else 0) /\
  (Z.land (set_bits causes) m <> 0 <-> In m causes).
Proof.
  assert (Hpow : forall x, In x (m :: causes) -> exists k, 0 <= k /\ x = 2 ^ k).
  { intros x [<- | Hx]; apply mc_int_masks_pow2_of; [exact Hm |].
    apply Hcauses. exact Hx. }
  split; [apply set_bits_test | apply set_bits_raised]; exact Hpow.
Qed.

Lemma mc_int_status_decode_witness :
  Z.land (set_bits [MC_INT_DECERR_EMEM; MC_INT_WCAM_ERR]) MC_INT_WCAM_ERR <> 0 <->
  In MC_INT_WCAM_ERR [MC_INT_DECERR_EMEM; MC_INT_WCAM_ERR].
Proof.
  apply (mc_int_status_decode [MC_INT_DECERR_EMEM; MC_INT_WCAM_ERR]
           MC_INT_WCAM_ERR).
  - intros x Hx. unfold mc_int_masks, mc_int_bits. simpl in *. tauto.
  - unfold mc_int_masks, mc_int_bits. simpl. tauto.
Defined.

(** Whatever MC_INT_* causes are raised, the status word is below 2^20 and
    has no bit outside the twelve masks, so it is the same number as a
    [u32] ([mc_int_mask], [sig]) and as an [int] ([intstatus]): converting
    between the two never changes it or makes it negative. *)
Theorem mc_int_status_range (causes : list Z)
  (Hcauses : incl causes mc_int_masks) :
  0 <= set_bits causes < 2 ^ 20 /\
  Z.land (set_bits causes) (set_bits mc_int_masks) = set_bits causes /\
  to_u32 (set_bits causes) = set_bits causes /\
  to_int (set_bits causes) = set_bits causes.
Proof.
  assert (Hlt : 0 <= set_bits causes < 2 ^ 20).
  { apply set_bits_below; [lia |].
    intros x Hx. apply Hcauses in Hx.
    unfold mc_int_masks, mc_int_bits in Hx.
    each_member Hx; (split; [apply Z.leb_le | apply Z.ltb_lt]; reflexivity). }
  assert (Hu : to_u32 (set_bits causes) = set_bits causes).
  { unfold to_u32. apply Z.mod_small. lia. }
  assert (Hi : to_int (set_bits causes) = set_bits causes).
  { unfold to_int. rewrite Z.mod_small by lia.
    destruct (Z.ltb_spec (set_bits causes) (2 ^ 31)); lia. }
  split; [exact Hlt |].
  split.
  - clear Hlt Hu Hi.
    induction causes as [| a causes IH]; [reflexivity |].
    change (set_bits (a :: causes)) with (Z.lor a (set_bits causes)).
    rewrite Z.land_lor_distr_l, IH.
    + f_equal.
      assert (Ha : In a mc_int_masks) by (apply Hcauses; left; reflexivity).
      unfold mc_int_masks, mc_int_bits in Ha.
      each_member Ha; reflexivity.
    + intros x Hx. apply Hcauses. right. exact Hx.
  - split; [exact Hu | exact Hi].
Qed.

Lemma mc_int_status_range_witness :
  0 <= set_bits mc_int_masks < 2 ^ 20 /\
  to_int (set_bits mc_int_masks) = set_bits mc_int_masks.
Proof.
  destruct (mc_int_status_range mc_int_masks (incl_refl _))
    as (Hlt & _ & _ & Hi).
  split; [exact Hlt | exact Hi].
Defined.

(** ** Flags of an error description *)



(** * The initialiser macros *)

Example MC_ERR_ex2 :
  option_map (build_mc_error mcerr_h)
    (expand 8 mcerr_h
       (Call "MC_ERR" [Ident "MC_INT_DECERR_VPR"; Str "MC request violates VPR";
                       Lit 0; Ident "MC_ERR_BBC_STATUS"; Ident "MC_ERR_BBC_ADR"])) =
  Some (Some (MC_ERR 4096 (Some "MC request violates VPR") 0 0x84 0x88)).
Proof. reflexivity. Qed.

Example MC_ERR_ex3 :
  sig (MC_ERR 0x100000040 (Some "wide") 0 0 0) = 64 /\
  sig (MC_ERR (-1) (Some "neg") 0 0 0) = 4294967295 /\
  flags (MC_ERR 0 (Some "neg") 0x80000000 0 0) = -2147483648 /\
  option_map (build_mc_error mcerr_h)
    (expand 8 mcerr_h
       (Call "MC_ERR" [Lit 0x100000040; Str "wide"; Lit 0; Lit 0x1FFFFFFFF;
                       Lit (-4)])) =
  Some (Some {| msg := Some "wide"; sig := 64; flags := 0;
                stat_reg := 4294967295; addr_reg := 4294967292 |}).
Proof. repeat split. Qed.

Example MC_ERR_ex4 :
  option_map (build_mc_error mcerr_h)
    (expand 8 mcerr_h
       (Call "MC_ERR" [Lit 0; Ident "NULL"; Lit 0; Lit 0; Lit 0])) =
  Some (Some {| msg := None; sig := 0; flags := 0; stat_reg := 0;
                addr_reg := 0 |}).
Proof. reflexivity. Qed.

(** MC_ERR names every member of [struct mc_error] once, although not in
    the order of the structure, and takes each from the parameter called
    like the member: no member is left to its default.  The expansion
    builds the structure that holds the five arguments, each converted to
    the type of its member: sig, stat_reg and addr_reg modulo 2^32, flags
    to a 32-bit signed value, so arguments in the range of their members
    are held as they are.  The message may be NULL.  An argument that is a
    macro of the header, such as an MC_INT_* mask given as signature, is
    expanded to its value, and four arguments do not expand. *)
Theorem MC_ERR_initialises_every_member :
  (exists ps b,
     find_macro mcerr_h "MC_ERR" = Some (Some ps, b) /\
     Permutation (designators b) (map fst mc_error_fields) /\
     NoDup (designators b) /\
     ps = map (String.append "_") (designators b) /\
     b = BExpr (Init (map (fun d => (d, Par (String.append "_" d)))
                          (designators b)))) /\
  (forall (s f st a : Z) (m : string),
     option_map (build_mc_error mcerr_h)
       (expand 8 mcerr_h (Call "MC_ERR" [Lit s; Str m; Lit f; Lit st; Lit a])) =
     Some (Some (MC_ERR s (Some m) f st a)) /\
     option_map (build_mc_error mcerr_h)
       (expand 8 mcerr_h
          (Call "MC_ERR" [Lit s; Ident "NULL"; Lit f; Lit st; Lit a])) =
     Some (Some (MC_ERR s None f st a))) /\
  (forall (s f st a : Z) (m : option string),
     MC_ERR s m f st a =
       {| msg := m; sig := s mod 2 ^ 32; flags := to_int f;
          stat_reg := st mod 2 ^ 32; addr_reg := a mod 2 ^ 32 |} /\
     is_u32 (sig (MC_ERR s m f st a)) /\
     is_int (flags (MC_ERR s m f st a)) /\
     is_u32 (stat_reg (MC_ERR s m f st a)) /\
     is_u32 (addr_reg (MC_ERR s m f st a)) /\
     (is_u32 s -> is_int f -> is_u32 st -> is_u32 a ->
      MC_ERR s m f st a =
        {| msg := m; sig := s; flags := f; stat_reg := st; addr_reg := a |})) /\
  (forall (c : string) (v f st a : Z) (m : string),
     In (c, v) mc_int_bits ->
     option_map (build_mc_error mcerr_h)
       (expand 8 mcerr_h (Call "MC_ERR" [Ident c; Str m; Lit f; Lit st; Lit a])) =
     Some (Some (MC_ERR v (Some m) f st a)) /\
     sig (MC_ERR v (Some m) f st a) = v) /\
  (forall (s f st : Z) (m : string),
     expand 8 mcerr_h (Call "MC_ERR" [Lit s; Str m; Lit f; Lit st]) = None).
Proof.
  split.
  { eexists; eexists.
    split; [reflexivity |].
    split; [apply perm_swap |].
    split.
    - simpl. repeat (constructor; [simpl; intuition discriminate |]).
      constructor.
    - split; reflexivity. }
  split; [intros; split; reflexivity |].
  split.
  { intros s f st a m.
    split; [reflexivity |].
    split; [apply to_u32_range |].
    split; [apply to_int_range |].
    split; [apply to_u32_range |].
    split; [apply to_u32_range | apply MC_ERR_in_range]. }
  split; [| intros; reflexivity].
  intros c v f st a m Hin.
  unfold mc_int_bits in Hin.
  each_member Hin; split; reflexivity.
Qed.

(** client pastes its third argument behind TEGRA_SWGROUP_: the member
    swgid is the enumerator of that name, whatever the identifier is (even
    the name of a macro, which is not expanded), and swgroup and name are
    the first two arguments.  dummy_client is the client "dummy", "dummy"
    with TEGRA_SWGROUP_INVALID.  A third argument that is a string literal
    cannot be pasted, and a wrong number of arguments does not expand. *)
Theorem client_pastes_swgroup (ids : string -> Z) (g n id : string) :
  expand 8 mcerr_h (Call "client" [Str g; Str n; Ident id]) =
    Some (Init [("swgroup", Str g); ("name", Str n);
                ("swgid", Ident ("TEGRA_SWGROUP_" ++ id))]) /\
  option_map (build_mc_client ids)
    (expand 8 mcerr_h (Call "client" [Str g; Str n; Ident id])) =
    Some (Some (client ids (Some g) (Some n) id)) /\
  expand 8 mcerr_h (Ident "dummy_client") =
    Some (Init [("swgroup", Str "dummy"); ("name", Str "dummy");
                ("swgid", Ident "TEGRA_SWGROUP_INVALID")]) /\
  option_map (build_mc_client ids) (expand 8 mcerr_h (Ident "dummy_client")) =
    Some (Some (dummy_client ids)) /\
  expand 8 mcerr_h (Call "client" [Str g; Str n; Str id]) = None /\
  expand 8 mcerr_h (Call "client" [Str g; Str n]) = None.
Proof.
  assert (Hexp : expand 8 mcerr_h (Call "client" [Str g; Str n; Ident id]) =
                 Some (Init [("swgroup", Str g); ("name", Str n);
                             ("swgid", Ident ("TEGRA_SWGROUP_" ++ id))]))
    by reflexivity.
  split; [exact Hexp |].
  split.
  { rewrite Hexp.
    cbn [option_map build_mc_client str_member lookup String.eqb Ascii.eqb
         Bool.eqb].
    rewrite swgroup_enum_paste. reflexivity. }
  split; [reflexivity |].
  split.
  { pose proof (swgroup_enum_paste ids "INVALID") as Hinv.
    cbn [String.append] in Hinv.
    change (expand 8 mcerr_h (Ident "dummy_client")) with
      (Some (Init [("swgroup", Str "dummy"); ("name", Str "dummy");
                   ("swgid", Ident "TEGRA_SWGROUP_INVALID")])).
    cbn [option_map build_mc_client str_member lookup String.eqb Ascii.eqb
         Bool.eqb].
    rewrite Hinv. reflexivity. }
  split; reflexivity.
Qed.

(** * Messages in a row *)

Lemma mcerr_pr_values (fmt : string) (vs : list value) (k : kernel) :
  mcerr_pr fmt (ret vs) k =
    (tt, k, if mcerr_silenced k =? 0
            then [EvTracePrintk fmt vs; EvPrErr fmt vs] else []).
Proof.
  unfold mcerr_pr, bind, read_mcerr_silenced, trace_printk, pr_err, ret.
  rewrite c_true_c_not.
  destruct (mcerr_silenced k =? 0); reflexivity.
Qed.

(** Any number of mcerr_pr invocations in a row, with arguments that have
    no side effect, print all of their messages or none: they leave
    mcerr_silenced and the rest of the state as they found them, so when
    it is zero every message appears, in order, each on the trace first and
    on the log second, and when it is not zero nothing appears. *)
Theorem mcerr_pr_all_or_nothing (msgs : list (string * list value)) (k : kernel) :
  mcerr_pr_all msgs k =
    (tt, k, if mcerr_silenced k =? 0 then printed msgs else []) /\
  (mcerr_silenced k = 0 ->
     List.length (emitted (mcerr_pr_all msgs k)) = (2 * List.length msgs)%nat) /\
  (forall more,
     emitted (mcerr_pr_all (msgs ++ more) k) =
     (emitted (mcerr_pr_all msgs k) ++ emitted (mcerr_pr_all more k))%list).
Proof.
  assert (Hall : forall l,
            mcerr_pr_all l k =
              (tt, k, if mcerr_silenced k =? 0 then printed l else [])).
  { induction l as [| [fmt vs] rest IH].
    - simpl. unfold ret. destruct (mcerr_silenced k =? 0); reflexivity.
    - cbn [mcerr_pr_all]. unfold bind at 1.
      rewrite mcerr_pr_values, IH.
      destruct (mcerr_silenced k =? 0); reflexivity. }
  split; [apply Hall |].
  split.
  - intros Hz. rewrite Hall. apply Z.eqb_eq in Hz. rewrite Hz.
    unfold emitted, printed; cbn [snd].
    induction msgs as [| m rest IH]; [reflexivity |].
    cbn [flat_map List.length app]. rewrite IH. lia.
  - intros more. rewrite !Hall. unfold emitted; cbn [snd].
    destruct (mcerr_silenced k =? 0); [| reflexivity].
    unfold printed. apply flat_map_app.
Qed.

(** * The SMMU field of a signed status *)

Lemma SMMU_mask_mod (z : Z) :
  Z.land (z mod 2 ^ 32) MC_ERR_SMMU_MASK = Z.land z MC_ERR_SMMU_MASK.
Proof.
  rewrite <- Z.land_ones by lia.
  rewrite <- Z.land_assoc.
  reflexivity.
Qed.

Lemma SMMU_mask_to_int (z : Z) :
  Z.land (to_int z) MC_ERR_SMMU_MASK = Z.land z MC_ERR_SMMU_MASK.
Proof.
  unfold to_int; cbv zeta.
  destruct (z mod 2 ^ 32 <? 2 ^ 31).
  - apply SMMU_mask_mod.
  - rewrite <- (SMMU_mask_mod (z mod 2 ^ 32 - 2 ^ 32)).
    replace ((z mod 2 ^ 32 - 2 ^ 32) mod 2 ^ 32) with (z mod 2 ^ 32).
    + apply SMMU_mask_mod.
    + rewrite <- (Z.mod_mod z (2 ^ 32)) at 1 by lia.
      rewrite <- (Z.mod_add (z mod 2 ^ 32) (-1) (2 ^ 32)) at 1 by lia.
      f_equal; lia.
Qed.

(** MC_ERR_SMMU_BITS gives the same field whether the status is held as a
    [u32] or as an [int], also with bit 31 set: the mask has no sign bit,
    so what the macro shifts right is never negative and is below 2^28. *)
Theorem MC_ERR_SMMU_BITS_sign_independent (z : Z) :
  0 <= Z.land z MC_ERR_SMMU_MASK < 2 ^ 28 /\
  0 <= Z.land (to_int z) MC_ERR_SMMU_MASK < 2 ^ 28 /\
  MC_ERR_SMMU_BITS (to_int z) = MC_ERR_SMMU_BITS z /\
  MC_ERR_SMMU_BITS (to_u32 z) = MC_ERR_SMMU_BITS z /\
  0 <= MC_ERR_SMMU_BITS z <= 7.
Proof.
  assert (Hrange : forall x, 0 <= Z.land x MC_ERR_SMMU_MASK < 2 ^ 28).
  { intro x.
    assert (Hnn : 0 <= Z.land x MC_ERR_SMMU_MASK)
      by (apply Z.land_nonneg; right; unfold MC_ERR_SMMU_MASK; simpl; lia).
    split; [exact Hnn |].
    rewrite <- (SMMU_field_shiftl x), Z.shiftl_mul_pow2 by lia.
    pose proof (MC_ERR_SMMU_BITS_div_mod x) as Hdm.
    pose proof (Z.mod_pos_bound (x / 2 ^ 25) 8 ltac:(lia)) as Hb.
    rewrite <- Hdm in Hb.
    change (2 ^ 28) with (8 * 2 ^ 25). nia. }
  split; [apply Hrange |].
  split; [apply Hrange |].
  split.
  { unfold MC_ERR_SMMU_BITS. rewrite SMMU_mask_to_int. reflexivity. }
  split.
  { unfold MC_ERR_SMMU_BITS, to_u32. rewrite SMMU_mask_mod. reflexivity. }
  rewrite MC_ERR_SMMU_BITS_div_mod.
  pose proof (Z.mod_pos_bound (z / 2 ^ 25) 8 ltac:(lia)).
  lia.
Qed.

Example MC_ERR_SMMU_BITS_ex4 :
  to_int 0x8C000000 = -1946157056 /\
  MC_ERR_SMMU_BITS (to_int 0x8C000000) = 6 /\
  MC_ERR_SMMU_BITS 0x8C000000 = 6.
Proof. repeat split. Qed.
